(** * Plant disease diagnosis: the analysis pipeline and the report session

    A shallow embedding of
      - [supabase/functions/analyze-plant-disease/index.ts] (the edge
        function: credential check, upstream call, classification of the
        upstream reply, extraction of a JSON value from the model's text);
      - [src/components/AnalysisResults] (the report component:
        [getSeverityData] and [generatePDFInLanguage]);
    together with the part of the JavaScript runtime these rely on
    ([JSON.parse], [JSON.stringify] on records, the two regular
    expressions, property lookup, [ToString]).

    JavaScript strings are sequences of UTF-16 code units; a code unit is
    an [N].  Numbers are kept as exact decimals [m * 10^e]; the rounding
    to IEEE doubles done by an engine is outside the model, and [-0] is
    identified with [0]. *)

From Stdlib Require Import String Ascii NArith ZArith Bool List Lia.
Import ListNotations.

Set Warnings "-register-all".

Open Scope string_scope.
Open Scope list_scope.

(* ================================================================== *)
(** * Part I: definitions                                              *)
(* ================================================================== *)

(** ** Strings of code units *)

Module Str.
Local Open Scope N_scope.

Abbreviation code_unit := N (only parsing).
Abbreviation jsstring := (list N) (only parsing).

(** An ASCII literal of the source as a string of code units. *)
Definition js (s : string) : jsstring :=
  map N_of_ascii (list_ascii_of_string s).

Fixpoint eqb (a b : jsstring) : bool :=
  match a, b with
  | [], [] => true
  | x :: a', y :: b' => (x =? y) && eqb a' b'
  | _, _ => false
  end.

(** [strip_prefix p l] is [Some r] when [l = p ++ r]. *)
Fixpoint strip_prefix (p l : jsstring) : option jsstring :=
  match p with
  | [] => Some l
  | x :: p' =>
      match l with
      | y :: l' => if x =? y then strip_prefix p' l' else None
      | [] => None
      end
  end.

Definition starts_with (p l : jsstring) : bool :=
  match strip_prefix p l with Some _ => true | None => false end.

(** The text after the first occurrence of [p] in [l]
    ([String.prototype.indexOf] followed by a slice). *)
Fixpoint after_first (p l : jsstring) : option jsstring :=
  match strip_prefix p l with
  | Some r => Some r
  | None =>
      match l with
      | [] => None
      | _ :: l' => after_first p l'
      end
  end.

(** Does [p] occur in [l]? *)
Definition occurs (p l : jsstring) : bool :=
  match after_first p l with Some _ => true | None => false end.

(** Joining with a separator ([Array.prototype.join] on strings). *)
Fixpoint join (sep : jsstring) (l : list jsstring) : jsstring :=
  match l with
  | [] => []
  | [x] => x
  | x :: rest => x ++ sep ++ join sep rest
  end.

(** Decimal digits of a natural number, most significant first.
    [fuel] bounds the number of digits. *)
Fixpoint digits_fuel (fuel : nat) (n : N) : jsstring :=
  match fuel with
  | O => []
  | S f =>
      (if n <? 10 then [] else digits_fuel f (n / 10)) ++ [48 + n mod 10]
  end.

Definition digits_of (n : N) : jsstring :=
  digits_fuel (S (N.to_nat (N.size n))) n.

Definition is_digit (c : code_unit) : bool := (48 <=? c) && (c <=? 57).

(** Value of a run of decimal digits. *)
Definition digits_value (ds : jsstring) : N :=
  fold_left (fun a d => 10 * a + (d - 48)) ds 0.

End Str.

(** ** JSON values and [JSON.parse] *)

Module Json.
Import Str.
Local Open Scope N_scope.

(** A number is the exact decimal [m * 10^e], normalised by [mk_number]
    below: [e <= 0], and [m] is a multiple of ten only when [e = 0].  An
    object is the list of its own properties in creation order. *)
Inductive json : Type :=
| JNull
| JBool (b : bool)
| JNumber (m e : Z)
| JString (s : jsstring)
| JArray (l : list json)
| JObject (props : list (jsstring * json)).

(** Result of a parsing function: a value and the unread input, a syntax
    error, or fuel exhausted (which [JSON_parse] never meets, see
    [JSON_parse_fuel_adequate]). *)
Inductive presult (A : Type) : Type :=
| POk (a : A) (rest : jsstring)
| PErr
| PFuel.
Arguments POk {A} a rest.
Arguments PErr {A}.
Arguments PFuel {A}.

(** JSON white space: space, tab, line feed, carriage return. *)
Definition is_json_ws (c : code_unit) : bool :=
  (c =? 32) || (c =? 9) || (c =? 10) || (c =? 13).

Fixpoint skip_ws (l : jsstring) : jsstring :=
  match l with
  | c :: r => if is_json_ws c then skip_ws r else l
  | [] => []
  end.

Definition hex_value (c : code_unit) : option N :=
  if (48 <=? c) && (c <=? 57) then Some (c - 48)
  else if (97 <=? c) && (c <=? 102) then Some (c - 87)
  else if (65 <=? c) && (c <=? 70) then Some (c - 55)
  else None.

Definition hex4 (a b c d : code_unit) : option code_unit :=
  match hex_value a, hex_value b, hex_value c, hex_value d with
  | Some x, Some y, Some z, Some w => Some (4096 * x + 256 * y + 16 * z + w)
  | _, _, _, _ => None
  end.

(** The single-character escapes: quote, backslash, slash, b f n r t. *)
Definition unescape (c : code_unit) : option code_unit :=
  if c =? 34 then Some 34
  else if c =? 92 then Some 92
  else if c =? 47 then Some 47
  else if c =? 98 then Some 8
  else if c =? 102 then Some 12
  else if c =? 110 then Some 10
  else if c =? 114 then Some 13
  else if c =? 116 then Some 9
  else None.

Definition consr (c : code_unit) (r : option (jsstring * jsstring))
  : option (jsstring * jsstring) :=
  match r with
  | Some (s, rest) => Some (c :: s, rest)
  | None => None
  end.

(** A string literal after its opening quote: the decoded string and the
    input after the closing quote. *)
Fixpoint parse_string_body (l : jsstring) : option (jsstring * jsstring) :=
  match l with
  | [] => None
  | c :: rest =>
      if c =? 34 then Some ([], rest)
      else if c =? 92 then
        match rest with
        | [] => None
        | e :: rest' =>
            if e =? 117 then
              match rest' with
              | h1 :: h2 :: h3 :: h4 :: rest'' =>
                  match hex4 h1 h2 h3 h4 with
                  | Some u => consr u (parse_string_body rest'')
                  | None => None
                  end
              | _ => None
              end
            else
              match unescape e with
              | Some u => consr u (parse_string_body rest')
              | None => None
              end
        end
      else if c <? 32 then None
      else consr c (parse_string_body rest)
  end.

Fixpoint span_digits (l : jsstring) : jsstring * jsstring :=
  match l with
  | c :: r =>
      if is_digit c then let (d, r') := span_digits r in (c :: d, r')
      else ([], l)
  | [] => ([], [])
  end.

Fixpoint drop_zeros (l : jsstring) : jsstring :=
  match l with
  | c :: r => if c =? 48 then drop_zeros r else l
  | [] => []
  end.

Definition trailing_zeros (ds : jsstring) : nat :=
  length ds - length (drop_zeros (rev ds)).

(** The number with digits [ds] (most significant first), decimal
    exponent [e] and sign [neg], normalised: an integer is [JNumber n 0],
    any other value [JNumber m e] with [e < 0] and [m] not a multiple
    of ten. *)
Definition mk_number (neg : bool) (ds : jsstring) (e : Z) : json :=
  let v := Z.of_N (digits_value ds) in
  let sgn := if neg then (-1)%Z else 1%Z in
  if (v =? 0)%Z then JNumber 0 0
  else if (0 <=? e)%Z then JNumber (sgn * (v * 10 ^ e))%Z 0
  else
    let k := Z.min (Z.of_nat (trailing_zeros ds)) (- e) in
    JNumber (sgn * (v / 10 ^ k))%Z (e + k)%Z.

(** Optional fraction: a dot followed by at least one digit. *)
Definition parse_frac (l : jsstring) : option (jsstring * jsstring) :=
  match l with
  | c :: r =>
      if c =? 46 then
        match span_digits r with
        | ([], _) => None
        | (ds, r') => Some (ds, r')
        end
      else Some ([], l)
  | [] => Some ([], l)
  end.

(** The digits of an exponent, at least one. *)
Definition exp_digits (neg : bool) (l : jsstring) : option (Z * jsstring) :=
  match span_digits l with
  | ([], _) => None
  | (ds, r) =>
      let v := Z.of_N (digits_value ds) in
      Some (if neg then (- v)%Z else v, r)
  end.

(** Optional exponent: [e] or [E], an optional sign, the digits. *)
Definition parse_exp (l : jsstring) : option (Z * jsstring) :=
  match l with
  | c :: r =>
      if (c =? 101) || (c =? 69) then
        match r with
        | s :: r0 =>
            if s =? 45 then exp_digits true r0
            else if s =? 43 then exp_digits false r0
            else exp_digits false r
        | [] => None
        end
      else Some (0%Z, l)
  | [] => Some (0%Z, l)
  end.

(** A number after its sign: an integer part that is [0] or starts with a
    nonzero digit, an optional fraction, an optional exponent. *)
Definition unsigned_number (neg : bool) (l : jsstring)
  : option (json * jsstring) :=
  match l with
  | c :: r =>
      if is_digit c then
        let '(ip, l2) := if c =? 48 then ([c], r) else span_digits l in
        match parse_frac l2 with
        | None => None
        | Some (fp, l3) =>
            match parse_exp l3 with
            | None => None
            | Some (ex, l4) =>
                Some (mk_number neg (ip ++ fp)
                        (ex - Z.of_nat (length fp))%Z, l4)
            end
        end
      else None
  | [] => None
  end.

(** A number: an optional minus, then [unsigned_number]. *)
Definition parse_number (l : jsstring) : option (json * jsstring) :=
  match l with
  | c :: r => if c =? 45 then unsigned_number true r
              else unsigned_number false l
  | [] => None
  end.

(** [CreateDataProperty] on an object under construction: a repeated key
    overwrites the value in place, a new key is appended. *)
Fixpoint obj_set (k : jsstring) (v : json) (o : list (jsstring * json))
  : list (jsstring * json) :=
  match o with
  | [] => [(k, v)]
  | (k', v') :: o' =>
      if Str.eqb k k' then (k, v) :: o' else (k', v') :: obj_set k v o'
  end.

Definition obj_of_members (ms : list (jsstring * json))
  : list (jsstring * json) :=
  fold_left (fun o kv => obj_set (fst kv) (snd kv) o) ms [].

Definition lit_true := js "true".
Definition lit_false := js "false".
Definition lit_null := js "null".

(** The recursive-descent parser, first its three productions over the
    parsers they call.  [value_body] reads one value after optional white
    space; [elements_body] reads the values of an array up to its closing
    bracket, [members_body] the members of an object up to its closing
    brace (both after the opening one, not empty). *)
Section Productions.

Variable value : jsstring -> presult json.
Variable elements : jsstring -> presult (list json).
Variable members : jsstring -> presult (list (jsstring * json)).

Definition value_body (l : jsstring) : presult json :=
  match skip_ws l with
  | [] => PErr
  | c :: rest =>
      if c =? 123 then
        match skip_ws rest with
        | c' :: rest' =>
            if c' =? 125 then POk (JObject []) rest'
            else
              match members (c' :: rest') with
              | POk ms r => POk (JObject (obj_of_members ms)) r
              | PErr => PErr
              | PFuel => PFuel
              end
        | [] => PErr
        end
      else if c =? 91 then
        match skip_ws rest with
        | c' :: rest' =>
            if c' =? 93 then POk (JArray []) rest'
            else
              match elements (c' :: rest') with
              | POk vs r => POk (JArray vs) r
              | PErr => PErr
              | PFuel => PFuel
              end
        | [] => PErr
        end
      else if c =? 34 then
        match parse_string_body rest with
        | Some (s, r) => POk (JString s) r
        | None => PErr
        end
      else if (c =? 45) || is_digit c then
        match parse_number (c :: rest) with
        | Some (v, r) => POk v r
        | None => PErr
        end
      else
        match strip_prefix lit_true (c :: rest) with
        | Some r => POk (JBool true) r
        | None =>
            match strip_prefix lit_false (c :: rest) with
            | Some r => POk (JBool false) r
            | None =>
                match strip_prefix lit_null (c :: rest) with
                | Some r => POk JNull r
                | None => PErr
                end
            end
        end
  end.

Definition elements_body (l : jsstring) : presult (list json) :=
  match value l with
  | POk v r =>
      match skip_ws r with
      | c :: r' =>
          if c =? 44 then
            match elements r' with
            | POk vs r'' => POk (v :: vs) r''
            | PErr => PErr
            | PFuel => PFuel
            end
          else if c =? 93 then POk [v] r'
          else PErr
      | [] => PErr
      end
  | PErr => PErr
  | PFuel => PFuel
  end.

Definition members_body (l : jsstring)
  : presult (list (jsstring * json)) :=
  match skip_ws l with
  | c :: r0 =>
      if c =? 34 then
        match parse_string_body r0 with
        | Some (k, r1) =>
            match skip_ws r1 with
            | c1 :: r2 =>
                if c1 =? 58 then
                  match value r2 with
                  | POk v r3 =>
                      match skip_ws r3 with
                      | c3 :: r4 =>
                          if c3 =? 44 then
                            match members r4 with
                            | POk ms r5 => POk ((k, v) :: ms) r5
                            | PErr => PErr
                            | PFuel => PFuel
                            end
                          else if c3 =? 125 then POk [(k, v)] r4
                          else PErr
                      | [] => PErr
                      end
                  | PErr => PErr
                  | PFuel => PFuel
                  end
                else PErr
            | [] => PErr
            end
        | None => PErr
        end
      else PErr
  | [] => PErr
  end.

End Productions.

(** The parser: each level of nesting and each element or member takes
    one unit of [fuel]. *)
Fixpoint parse_value (fuel : nat) (l : jsstring) {struct fuel}
  : presult json :=
  match fuel with
  | O => PFuel
  | S f => value_body (parse_elements f) (parse_members f) l
  end

with parse_elements (fuel : nat) (l : jsstring) {struct fuel}
  : presult (list json) :=
  match fuel with
  | O => PFuel
  | S f => elements_body (parse_value f) (parse_elements f) l
  end

with parse_members (fuel : nat) (l : jsstring) {struct fuel}
  : presult (list (jsstring * json)) :=
  match fuel with
  | O => PFuel
  | S f => members_body (parse_value f) (parse_members f) l
  end.

(** [JSON.parse text]: [None] stands for the [SyntaxError] it throws.  One
    value, then only white space. *)
Definition JSON_parse (text : jsstring) : option json :=
  match parse_value (2 * length text + 1) text with
  | POk v rest =>
      match skip_ws rest with
      | [] => Some v
      | _ :: _ => None
      end
  | PErr => None
  | PFuel => None
  end.

End Json.

(** ** [JSON.stringify] on strings, integers and arrays of strings *)

Module Stringify.
Import Str Json.
Local Open Scope N_scope.

Definition hex_digit (n : N) : code_unit :=
  if n <? 10 then 48 + n else 87 + n.

(** [UnicodeEscape]: backslash, [u], four lower-case hexadecimal digits. *)
Definition unicode_escape (c : code_unit) : jsstring :=
  [92; 117; hex_digit (c / 4096 mod 16); hex_digit (c / 256 mod 16);
   hex_digit (c / 16 mod 16); hex_digit (c mod 16)].

Definition is_high_surrogate (c : code_unit) : bool :=
  (55296 <=? c) && (c <=? 56319).
Definition is_low_surrogate (c : code_unit) : bool :=
  (56320 <=? c) && (c <=? 57343).

(** [QuoteJSONString] without the surrounding quotes: the short escapes,
    [UnicodeEscape] for the other control characters and for lone
    surrogates, everything else (a surrogate pair included) verbatim. *)
Fixpoint quote_body (s : jsstring) : jsstring :=
  match s with
  | [] => []
  | c :: rest =>
      if c =? 8 then 92 :: 98 :: quote_body rest
      else if c =? 9 then 92 :: 116 :: quote_body rest
      else if c =? 10 then 92 :: 110 :: quote_body rest
      else if c =? 12 then 92 :: 102 :: quote_body rest
      else if c =? 13 then 92 :: 114 :: quote_body rest
      else if c =? 34 then 92 :: 34 :: quote_body rest
      else if c =? 92 then 92 :: 92 :: quote_body rest
      else if c <? 32 then unicode_escape c ++ quote_body rest
      else if is_high_surrogate c then
        match rest with
        | d :: rest' =>
            if is_low_surrogate d then c :: d :: quote_body rest'
            else unicode_escape c ++ quote_body rest
        | [] => unicode_escape c
        end
      else if is_low_surrogate c then unicode_escape c ++ quote_body rest
      else c :: quote_body rest
  end.

Definition quote (s : jsstring) : jsstring := 34 :: quote_body s ++ [34].

(** An integer: a minus sign when negative, then the decimal digits. *)
Definition integer (z : Z) : jsstring :=
  (if (z <? 0)%Z then [45] else []) ++ digits_of (Z.abs_N z).

(** An array of strings. *)
Definition string_array (l : list jsstring) : jsstring :=
  91 :: join [44] (map quote l) ++ [93].

(** A member [key : value] of an object, the value already serialised. *)
Definition member (key : string) (value : jsstring) : jsstring :=
  quote (js key) ++ 58 :: value.

(** An object from its serialised members. *)
Definition object (members : list jsstring) : jsstring :=
  123 :: join [44] members ++ [125].

End Stringify.

(** ** The rest of the runtime: exceptions, [ToString], property lookup,
       the two regular expressions *)

Module Runtime.
Import Str Json.
Local Open Scope N_scope.

(** What the code throws: [new Error(message)], or the [SyntaxError] of
    [JSON.parse], or a [TypeError] of the engine (a property read on
    [null], a call of a non-function, a rejected [fetch]). *)
Inductive exn : Type :=
| Error (message : jsstring)
| SyntaxError
| TypeError.

Inductive result (A : Type) : Type :=
| Ok (a : A)
| Throw (e : exn).
Arguments Ok {A} a.
Arguments Throw {A} e.

Definition bind {A B : Type} (r : result A) (k : A -> result B) : result B :=
  match r with
  | Ok a => k a
  | Throw e => Throw e
  end.

Notation "x <- r ;; k" := (bind r (fun x => k))
  (at level 61, r at next level, right associativity).

(** [JSON.parse] as the code calls it: a [SyntaxError] is thrown. *)
Definition parse_or_throw (text : jsstring) : result json :=
  match JSON_parse text with
  | Some v => Ok v
  | None => Throw SyntaxError
  end.

(** Own property lookup; [None] is [undefined]. *)
Fixpoint lookup (k : jsstring) (props : list (jsstring * json))
  : option json :=
  match props with
  | [] => None
  | (k', v) :: rest => if Str.eqb k k' then Some v else lookup k rest
  end.

(** [v.name] for a property name that no prototype defines ([imageData],
    [language], [choices], [message], [content]) on a value that is not
    [null]: only an object can have it. *)
Definition get (v : json) (name : string) : option json :=
  match v with
  | JObject props => lookup (js name) props
  | _ => None
  end.

(** [v[0]] on a value that is not [null]. *)
Definition get0 (v : json) : option json :=
  match v with
  | JObject props => lookup [48] props
  | JArray (x :: _) => Some x
  | JString (c :: _) => Some (JString [c])
  | _ => None
  end.

(** [null] or [undefined]. *)
Definition nullish (v : option json) : bool :=
  match v with
  | None => true
  | Some JNull => true
  | Some _ => false
  end.

(** The optional access [v?.name] and [v?.[0]]. *)
Definition opt_get (v : option json) (name : string) : option json :=
  match v with
  | Some x => if nullish v then None else get x name
  | None => None
  end.

Definition opt_get0 (v : option json) : option json :=
  match v with
  | Some x => if nullish v then None else get0 x
  | None => None
  end.

(** A number of JSON text becomes the double nearest to it, ties to
    even.  The decimal [m * 10^e] becomes zero when its magnitude is at
    most [2^-1075], half of the least positive double. *)
Definition rounds_to_zero (m e : Z) : bool :=
  if (0 <=? e)%Z then (m =? 0)%Z
  else (Z.abs m * 2 ^ 1075 <=? 10 ^ (- e))%Z.

(** It becomes an infinity when its magnitude reaches [2^1024 - 2^970],
    half way from the greatest double to [2^1024]. *)
Definition rounds_to_infinity (m e : Z) : bool :=
  if (0 <=? e)%Z then (2 ^ 1024 - 2 ^ 970 <=? Z.abs m * 10 ^ e)%Z
  else ((2 ^ 1024 - 2 ^ 970) * 10 ^ (- e) <=? Z.abs m)%Z.

(** [!v]: [undefined], [null], [false], [0] and the empty string. *)
Definition falsy (v : option json) : bool :=
  match v with
  | None => true
  | Some JNull => true
  | Some (JBool b) => negb b
  | Some (JNumber m e) => rounds_to_zero m e
  | Some (JString s) => match s with [] => true | _ => false end
  | Some (JArray _) => false
  | Some (JObject _) => false
  end.

(** [Number::toString] (radix 10) on the exact decimal [m * 10^e]: with
    [k] significant digits and the decimal point after the [n]-th of them,
    plain digits for [0 < n <= 21], a leading [0.] for [-6 < n <= 0], the
    exponent form otherwise. *)
Definition number_to_string (m e : Z) : jsstring :=
  if (m =? 0)%Z then [48]
  else
    let all := digits_of (Z.abs_N m) in
    let sig := rev (drop_zeros (rev all)) in
    let k := Z.of_nat (length sig) in
    let n := (Z.of_nat (length all) + e)%Z in
    let sign := if (m <? 0)%Z then [45] else [] in
    let text :=
      if ((k <=? n) && (n <=? 21))%Z then
        sig ++ repeat 48 (Z.to_nat (n - k))
      else if ((0 <? n) && (n <=? 21))%Z then
        firstn (Z.to_nat n) sig ++ 46 :: skipn (Z.to_nat n) sig
      else if ((-6 <? n) && (n <=? 0))%Z then
        48 :: 46 :: repeat 48 (Z.to_nat (- n)) ++ sig
      else
        let x := (n - 1)%Z in
        let ex := 101 :: (if (x <? 0)%Z then 45 else 43)
                      :: digits_of (Z.abs_N x) in
        match sig with
        | [d] => d :: ex
        | d :: ds => d :: 46 :: ds ++ ex
        | [] => ex
        end in
    sign ++ text.

(** [Number::toString] on the double that the decimal [m * 10^e]
    becomes, at the two ends of the range: a zero gives [0], an infinity
    [Infinity] with its sign; in between the digits are those of the
    decimal. *)
Definition Number_toString (m e : Z) : jsstring :=
  if rounds_to_zero m e then [48]
  else if rounds_to_infinity m e then
    (if (m <? 0)%Z then [45] else []) ++ js "Infinity"
  else number_to_string m e.

(** [ToString] on a value that came out of [JSON.parse].  An array is
    joined with commas, [null] elements giving the empty string; an object
    gives [[object Object]], unless it has an own [toString] property
    (not callable, so the conversion ends in a [TypeError]). *)
Fixpoint ToString (v : json) : result jsstring :=
  match v with
  | JNull => Ok (js "null")
  | JBool true => Ok (js "true")
  | JBool false => Ok (js "false")
  | JNumber m e => Ok (Number_toString m e)
  | JString s => Ok s
  | JArray l =>
      (fix join_elements (l : list json) : result jsstring :=
         match l with
         | [] => Ok []
         | x :: rest =>
             s <- match x with JNull => Ok [] | _ => ToString x end ;;
             match rest with
             | [] => Ok s
             | _ :: _ => t <- join_elements rest ;; Ok (s ++ 44 :: t)
             end
         end) l
  | JObject props =>
      match lookup (js "toString") props with
      | Some _ => Throw TypeError
      | None => Ok (js "[object Object]")
      end
  end.

(** [ToString] of a value that may be [undefined]. *)
Definition ToString_opt (v : option json) : result jsstring :=
  match v with
  | None => Ok (js "undefined")
  | Some x => ToString x
  end.

(** *** The regular expressions *)

(** [\s] of a regular expression. *)
Definition is_regexp_space (c : code_unit) : bool :=
  ((9 <=? c) && (c <=? 13)) || (c =? 32) || (c =? 160) || (c =? 5760)
  || ((8192 <=? c) && (c <=? 8202)) || (c =? 8232) || (c =? 8233)
  || (c =? 8239) || (c =? 8287) || (c =? 12288) || (c =? 65279).

Fixpoint skip_space (l : jsstring) : jsstring :=
  match l with
  | c :: r => if is_regexp_space c then skip_space r else l
  | [] => []
  end.

Definition fence : jsstring := [96; 96; 96].

(** Can the tail of the fence pattern, optional white space and three
    backticks, match at the head of [l]? *)
Definition closes (l : jsstring) : bool := starts_with fence (skip_space l).

(** The lazy group: the shortest prefix of [l] after which [closes]. *)
Fixpoint lazy_capture (l : jsstring) : option jsstring :=
  if closes l then Some []
  else
    match l with
    | [] => None
    | c :: r =>
        match lazy_capture r with
        | Some g => Some (c :: g)
        | None => None
        end
    end.

(** Group 1 of the first match of the fence pattern: three backticks, an
    optional [json], white space, a lazy group of any characters, white
    space, three backticks.  The match starts at the first three backticks
    of the text: the greedy optional tag and the greedy white space are
    taken, then the group is the shortest that lets the rest match.  The
    other choices of the backtracking search (no tag, less white space, a
    later start) can only succeed when three more backticks follow, and
    then this first choice succeeds too. *)
Definition match_fence (text : jsstring) : option jsstring :=
  match after_first fence text with
  | None => None
  | Some r =>
      let r1 := match strip_prefix (js "json") r with
                | Some r' => r'
                | None => r
                end in
      lazy_capture (skip_space r1)
  end.

(** The text from its first [{] on. *)
Fixpoint from_first_brace (l : jsstring) : option jsstring :=
  match l with
  | [] => None
  | c :: r => if c =? 123 then Some r else from_first_brace r
  end.

(** The longest prefix of [l] that ends in [}]. *)
Fixpoint through_last_brace (l : jsstring) : option jsstring :=
  match l with
  | [] => None
  | c :: r =>
      match through_last_brace r with
      | Some p => Some (c :: p)
      | None => if c =? 125 then Some [c] else None
      end
  end.

(** Group 0 of the first match of the brace pattern, an opening brace,
    greedily any characters, a closing brace: from the first [{] of the
    text through its last [}]. *)
Definition match_object (text : jsstring) : option jsstring :=
  match from_first_brace text with
  | None => None
  | Some r =>
      match through_last_brace r with
      | Some p => Some (123 :: p)
      | None => None
      end
  end.

End Runtime.

(** ** The analysis record *)

Module Schema.
Import Str Json Stringify.
Local Open Scope N_scope.

(** [severity: 'low' | 'moderate' | 'high' | 'critical'] *)
Inductive Severity : Type := low | moderate | high | critical.

Definition severity_name (s : Severity) : string :=
  match s with
  | low => "low"
  | moderate => "moderate"
  | high => "high"
  | critical => "critical"
  end.

(** [interface AnalysisData], with an integer [confidence]. *)
Record AnalysisData : Type := {
  diseaseName : jsstring;
  scientificName : jsstring;
  confidence : Z;
  severity : Severity;
  description : jsstring;
  symptoms : list jsstring;
  causes : list jsstring;
  treatment : list jsstring;
  prevention : list jsstring;
  affectedParts : list jsstring;
  spreadRate : jsstring
}.

Definition strings (l : list jsstring) : json := JArray (map JString l).

(** The record as a JavaScript value. *)
Definition to_json (r : AnalysisData) : json :=
  JObject
    [ (js "diseaseName", JString (diseaseName r));
      (js "scientificName", JString (scientificName r));
      (js "confidence", JNumber (confidence r) 0);
      (js "severity", JString (js (severity_name (severity r))));
      (js "description", JString (description r));
      (js "symptoms", strings (symptoms r));
      (js "causes", strings (causes r));
      (js "treatment", strings (treatment r));
      (js "prevention", strings (prevention r));
      (js "affectedParts", strings (affectedParts r));
      (js "spreadRate", JString (spreadRate r)) ].

(** [JSON.stringify] of the record. *)
Definition serialize (r : AnalysisData) : jsstring :=
  object
    [ member "diseaseName" (quote (diseaseName r));
      member "scientificName" (quote (scientificName r));
      member "confidence" (integer (confidence r));
      member "severity" (quote (js (severity_name (severity r))));
      member "description" (quote (description r));
      member "symptoms" (string_array (symptoms r));
      member "causes" (string_array (causes r));
      member "treatment" (string_array (treatment r));
      member "prevention" (string_array (prevention r));
      member "affectedParts" (string_array (affectedParts r));
      member "spreadRate" (quote (spreadRate r)) ].

(** *** The schema in the specification's words

    The source has no check of this kind; these definitions follow
    section 3 of the specification, to state what the code is compared
    with. *)

Definition one_of (names : list string) (s : jsstring) : bool :=
  existsb (fun n => Str.eqb s (js n)) names.

Definition spec_is_string (v : option json) : bool :=
  match v with Some (JString _) => true | _ => false end.

Definition spec_is_strings (v : option json) : bool :=
  match v with
  | Some (JArray l) =>
      forallb (fun x => match x with JString _ => true | _ => false end) l
  | _ => false
  end.

Definition spec_is_enum (names : list string) (v : option json) : bool :=
  match v with Some (JString s) => one_of names s | _ => false end.

Definition spec_is_confidence (v : option json) : bool :=
  match v with
  | Some (JNumber m e) => ((e =? 0) && (0 <=? m) && (m <=? 100))%Z
  | _ => false
  end.

Definition spec_schema_ok (v : json) : bool :=
  match v with
  | JObject props =>
      let field name := Runtime.lookup (js name) props in
      spec_is_string (field "diseaseName")
      && spec_is_string (field "scientificName")
      && spec_is_confidence (field "confidence")
      && spec_is_enum ["low"; "moderate"; "high"; "critical"]
           (field "severity")
      && spec_is_string (field "description")
      && spec_is_strings (field "symptoms")
      && spec_is_strings (field "causes")
      && spec_is_strings (field "treatment")
      && spec_is_strings (field "prevention")
      && spec_is_strings (field "affectedParts")
      && spec_is_enum ["low"; "moderate"; "high"] (field "spreadRate")
  | _ => false
  end.

(** A valid record: what the types of [AnalysisData] leave open. *)
Definition spec_valid (r : AnalysisData) : Prop :=
  (0 <= confidence r <= 100)%Z
  /\ one_of ["low"; "moderate"; "high"] (spreadRate r) = true.

End Schema.

(** ** The edge function [analyze-plant-disease] *)

Module Edge.
Import Str Json Runtime.
Local Open Scope N_scope.

(** The extraction strategies, in the order of the source. *)
Inductive tier : Type := WholeText | FencedBlock | BraceSpan.

(** Lines 108 to 126: the value extracted from the model's text, with the
    strategies that were tried.  The [catch] around the first
    [JSON.parse] holds the two others, which nothing guards. *)
Definition parse_reply (content : jsstring) : result json * list tier :=
  match JSON_parse content with
  | Some v => (Ok v, [WholeText])
  | None =>
      match match_fence content with
      | Some inner => (parse_or_throw inner, [WholeText; FencedBlock])
      | None =>
          match match_object content with
          | Some span =>
              (parse_or_throw span, [WholeText; FencedBlock; BraceSpan])
          | None =>
              (Throw (Error (js "Could not extract JSON from response")),
               [WholeText; FencedBlock; BraceSpan])
          end
      end
  end.

(** The same lines for a [content] of any type that passed [!content].
    [JSON.parse] converts its argument to a string; when it throws, the
    handler calls [content.match], which only a string has. *)
Definition extract (content : json) : result json :=
  match content with
  | JString s => fst (parse_reply s)
  | _ =>
      match ToString content with
      | Ok s =>
          match JSON_parse s with
          | Some v => Ok v
          | None => Throw TypeError
          end
      | Throw _ => Throw TypeError
      end
  end.

Record Request : Type := { method : jsstring; payload : jsstring }.

(** The call of the gateway: the credential of the [Authorization]
    header, the language written into both prompts, and the image put
    under [image_url.url] ([undefined] drops the key). *)
Record FetchRequest : Type := {
  bearer : jsstring;
  prompt_language : jsstring;
  image_url : option json
}.

(** What [fetch] gives: a rejection, or a response with a status and a
    body text. *)
Inductive FetchOutcome : Type :=
| Rejected
| Replied (status : Z) (text : jsstring).

Inductive Event : Type := Fetch (r : FetchRequest).

(** The [error] member of a failure body: a literal of the source or the
    engine's message of a [SyntaxError] or [TypeError]. *)
Inductive message : Type :=
| Text (s : jsstring)
| SyntaxErrorMessage
| TypeErrorMessage.

Definition error_message (e : exn) : message :=
  match e with
  | Error m => Text m
  | SyntaxError => SyntaxErrorMessage
  | TypeError => TypeErrorMessage
  end.

(** A response body: none, [JSON.stringify(value)], or
    [JSON.stringify({ error })]. *)
Inductive Body : Type :=
| NoBody
| JsonBody (v : json)
| ErrorBody (error : message).

Record Response : Type := { status : Z; body : Body }.

(** [response.ok] *)
Definition ok (status : Z) : bool := ((200 <=? status) && (status <=? 299))%Z.

(** [data.choices?.[0]?.message?.content] *)
Definition message_content (data : json) : result (option json) :=
  match data with
  | JNull => Throw TypeError
  | _ => Ok (opt_get (opt_get (opt_get0 (get data "choices")) "message")
                     "content")
  end.

(** Lines 79 to 136: from the gateway's response to the handler's. *)
Definition after_fetch (o : FetchOutcome) : result Response :=
  match o with
  | Rejected => Throw TypeError
  | Replied st text =>
      if negb (ok st) then
        if (st =? 429)%Z then
          Ok {| status := 429;
                body := ErrorBody (Text
                  (js "Rate limit exceeded. Please try again later.")) |}
        else if (st =? 402)%Z then
          Ok {| status := 402;
                body := ErrorBody (Text
                  (js "Payment required. Please add credits to your workspace.")) |}
        else Throw (Error (js "Failed to analyze image"))
      else
        data <- parse_or_throw text ;;
        content <- message_content data ;;
        if falsy content then
          Throw (Error (js "No analysis result received"))
        else
          match content with
          | Some c =>
              analysisResult <- extract c ;;
              Ok {| status := 200; body := JsonBody analysisResult |}
          | None => Throw (Error (js "No analysis result received"))
          end
  end.

(** [!LOVABLE_API_KEY]: the variable is unset or empty. *)
Definition not_configured (key : option jsstring) : bool :=
  match key with
  | None => true
  | Some [] => true
  | Some (_ :: _) => false
  end.

Definition credential (key : option jsstring) : jsstring :=
  match key with
  | Some k => k
  | None => []
  end.

(** Lines 15 to 136, after the request body was destructured into
    [args.imageData] and [args.language]: the response returned or what
    is thrown, and the calls of [fetch] made. *)
Definition analyze (args : json) (LOVABLE_API_KEY : option jsstring)
    (fetch : FetchRequest -> FetchOutcome) : result Response * list Event :=
  let imageData := get args "imageData" in
  let language := get args "language" in
  if not_configured LOVABLE_API_KEY then
    (Throw (Error (js "LOVABLE_API_KEY is not configured")), [])
  else
    match ToString_opt language with
    | Throw e => (Throw e, [])
    | Ok lang =>
        let call := {| bearer := credential LOVABLE_API_KEY;
                       prompt_language := lang;
                       image_url := imageData |} in
        (after_fetch (fetch call), [Fetch call])
    end.

(** Lines 14 to 136, the body of the [try]: [await req.json()], the
    destructuring (which [null] does not allow), then [analyze]. *)
Definition handle (req : Request) (LOVABLE_API_KEY : option jsstring)
    (fetch : FetchRequest -> FetchOutcome) : result Response * list Event :=
  match parse_or_throw (payload req) with
  | Throw e => (Throw e, [])
  | Ok JNull => (Throw TypeError, [])
  | Ok args => analyze args LOVABLE_API_KEY fetch
  end.

(** Lines 138 to 149, the [catch]: everything thrown becomes a 500 with
    the message of the error. *)
Definition recover (r : result Response) : Response :=
  match r with
  | Ok response => response
  | Throw error =>
      {| status := 500; body := ErrorBody (error_message error) |}
  end.

(** The handler given to [serve]. *)
Definition serve (req : Request) (LOVABLE_API_KEY : option jsstring)
    (fetch : FetchRequest -> FetchOutcome) : Response * list Event :=
  if Str.eqb (method req) (js "OPTIONS") then
    ({| status := 200; body := NoBody |}, [])
  else
    let run := handle req LOVABLE_API_KEY fetch in
    (recover (fst run), snd run).

End Edge.

(** ** The report component [AnalysisResults] *)

Module Report.
Import Str Json.
Local Open Scope N_scope.

(** [languages] of [LanguageSelector.tsx]: code and name (the native
    names, which are only displayed, are left out). *)
Definition languages : list (string * string) :=
  [ ("en", "English"); ("kn", "Kannada"); ("ta", "Tamil");
    ("ml", "Malayalam"); ("te", "Telugu"); ("hi", "Hindi");
    ("bn", "Bengali"); ("mr", "Marathi"); ("gu", "Gujarati") ].

(** [languages.find(l => l.code === code)?.name] *)
Definition language_name (code : jsstring) : option jsstring :=
  match find (fun l => Str.eqb (js (fst l)) code) languages with
  | Some l => Some (js (snd l))
  | None => None
  end.

(** *** [getSeverityData] *)

Definition severityMap : list (string * Z) :=
  [ ("low", 25%Z); ("moderate", 50%Z); ("high", 75%Z); ("critical", 100%Z) ].

(** The properties that an object literal inherits from
    [Object.prototype]. *)
Definition Object_prototype : list string :=
  [ "constructor"; "__defineGetter__"; "__defineSetter__"; "hasOwnProperty";
    "__lookupGetter__"; "__lookupSetter__"; "isPrototypeOf";
    "propertyIsEnumerable"; "toString"; "valueOf"; "__proto__";
    "toLocaleString" ].

(** What a property read on [severityMap] can give: one of its numbers,
    or the inherited member of that name (a function; for [__proto__] the
    prototype object), which is truthy and not a number. *)
Inductive property : Type :=
| Number (n : Z)
| Inherited (name : string).

(** [severityMap[severity] || 50]: own properties first, then the
    prototype; an absent property is [undefined] and gives [50]. *)
Definition getSeverityData (severity : jsstring) : property :=
  match find (fun kv => Str.eqb severity (js (fst kv))) severityMap with
  | Some (_, n) => if (n =? 0)%Z then Number 50 else Number n
  | None =>
      match find (fun name => Str.eqb severity (js name)) Object_prototype with
      | Some name => Inherited name
      | None => Number 50
      end
  end.

(** *** [generatePDFInLanguage] *)

(** The props handed down by the parent. *)
Record Props : Type := {
  data : json;
  language : jsstring;
  imagePreview : jsstring
}.

(** One instance of the component: its props, its state, and whether
    [resultsRef.current] is set. *)
Record View : Type := {
  props : Props;
  currentData : json;
  currentLanguage : jsstring;
  isGeneratingPDF : bool;
  mounted : bool
}.

(** The callback that [Index] passes as [onLanguageChange]:
    [setLanguage(newLang); setAnalysisData(newData)], which come back as
    the props [language] and [data] (for data that is not falsy: with
    falsy data [Index] renders the upload view instead of the
    report). *)
Definition Index_onLanguageChange (newLang : jsstring) (newData : json)
    (p : Props) : Props :=
  {| data := newData; language := newLang; imagePreview := imagePreview p |}.

(** What the element under [resultsRef] shows: the language indicator and
    the cards from the state, the confidence chart and the arc of the
    severity gauge from the prop [data], the image from the prop
    [imagePreview]. *)
Record Surface : Type := {
  shown_language : jsstring;
  shown : json;
  charted : json;
  shown_image : jsstring
}.

Definition render (v : View) : Surface :=
  {| shown_language := currentLanguage v;
     shown := currentData v;
     charted := data (props v);
     shown_image := imagePreview (props v) |}.

(** The saved document: the picture of a surface, and the language name
    in the file name (the time stamp of the name is left out). *)
Record Document : Type := { depicts : Surface; named : jsstring }.

Inductive ToastKind : Type :=
| Translating (name : option jsstring)
| Downloaded (languageName : jsstring)
| Failed (description : jsstring).

Inductive Effect : Type :=
| Toast (t : ToastKind)
| Invoke (imageData : jsstring) (language : jsstring)
| Capture (s : Surface)
| Save (d : Document).

(** The pair that [supabase.functions.invoke] resolves to: [data] with a
    null [error], or an [error] (an [Error] with a message). *)
Inductive InvokeResult : Type :=
| Data (translatedData : json)
| Failure (message : jsstring).

(** The run of one call: the component afterwards, the effects in order,
    and the local [dataToUse] ([None] when the function returned before
    declaring it). *)
Record Outcome : Type := {
  after : View;
  effects : list Effect;
  dataToUse : option json
}.

Section Component.

(** [supabase.functions.invoke('analyze-plant-disease', { body })] on
    [imageData] and [language]. *)
Variable invoke : jsstring -> jsstring -> InvokeResult.

(** [html2canvas] on the surface: [None] is a canvas that depicts it,
    [Some m] an exception with message [m]. *)
Variable html2canvas : Surface -> option jsstring.

(** The optional prop [onLanguageChange], as its effect on the props. *)
Variable onLanguageChange : option (jsstring -> json -> Props -> Props).

Definition set_generating (b : bool) (v : View) : View :=
  {| props := props v; currentData := currentData v;
     currentLanguage := currentLanguage v; isGeneratingPDF := b;
     mounted := mounted v |}.

(** Lines 523 to 529: [setCurrentData], [setCurrentLanguage] and the
    callback. *)
Definition adopt (selectedLanguage : jsstring) (translatedData : json)
    (v : View) : View :=
  {| props := match onLanguageChange with
              | Some callback => callback selectedLanguage translatedData
                                   (props v)
              | None => props v
              end;
     currentData := translatedData;
     currentLanguage := selectedLanguage;
     isGeneratingPDF := isGeneratingPDF v;
     mounted := mounted v |}.

(** Lines 535 to 559: capture, assemble, save, announce.  The surface is
    the one rendered from the component as it is then (the source waits
    500 ms after a language change for that). *)
Definition export (selectedLanguage : jsstring) (v : View)
  : list Effect :=
  let surface := render v in
  match html2canvas surface with
  | Some m => [Capture surface; Toast (Failed m)]
  | None =>
      let languageName :=
        match language_name selectedLanguage with
        | Some name => name
        | None => selectedLanguage
        end in
      [Capture surface;
       Save {| depicts := surface; named := languageName |};
       Toast (Downloaded languageName)]
  end.

Definition generatePDFInLanguage (selectedLanguage : jsstring) (v : View)
  : Outcome :=
  if negb (mounted v) then
    {| after := v; effects := []; dataToUse := None |}
  else
    let v1 := set_generating true v in
    if negb (Str.eqb selectedLanguage (currentLanguage v)) then
      let asked := [Toast (Translating (language_name selectedLanguage));
                    Invoke (imagePreview (props v)) selectedLanguage] in
      match invoke (imagePreview (props v)) selectedLanguage with
      | Failure m =>
          {| after := set_generating false v1;
             effects := asked ++ [Toast (Failed m)];
             dataToUse := Some (currentData v) |}
      | Data translatedData =>
          let v2 := adopt selectedLanguage translatedData v1 in
          {| after := set_generating false v2;
             effects := asked ++ export selectedLanguage v2;
             dataToUse := Some translatedData |}
      end
    else
      {| after := set_generating false v1;
         effects := export selectedLanguage v1;
         dataToUse := Some (currentData v) |}.

End Component.

End Report.

(** ** The two patterns as regular expressions *)

Module Regexp.
Import Str Json Runtime.
Local Open Scope N_scope.

(** A regular expression, as far as the two patterns of the source need
    it: literal characters, a starred character class (greedy or lazy), an
    optional part, a sequence, the capturing group. *)
Inductive regexp : Type :=
| Chars (s : jsstring)
| Many (greedy : bool) (class : code_unit -> bool)
| Maybe (r : regexp)
| Then (r1 r2 : regexp)
| Group (r : regexp).

Section Matcher.

Variable A : Type.

(** [class*] before the continuation [k]: a greedy star first tries to
    take one more character and falls back to stopping, a lazy star first
    tries to stop. *)
Fixpoint many (greedy : bool) (class : code_unit -> bool)
    (k : jsstring -> option A) (l : jsstring) : option A :=
  match l with
  | c :: l' =>
      if class c then
        if greedy then
          match many greedy class k l' with
          | Some a => Some a
          | None => k l
          end
        else
          match k l with
          | Some a => Some a
          | None => many greedy class k l'
          end
      else k l
  | [] => k l
  end.

(** The backtracking matcher: [run r l g k] matches [r] at the head of
    [l] and hands what is left, with the text of group 1, to [k]; when
    [k] fails, the next choice of [r] is tried. *)
Fixpoint run (r : regexp) (l : jsstring) (g : option jsstring)
    (k : jsstring -> option jsstring -> option A) : option A :=
  match r with
  | Chars s =>
      match strip_prefix s l with
      | Some l' => k l' g
      | None => None
      end
  | Many greedy class => many greedy class (fun l' => k l' g) l
  | Maybe r' =>
      match run r' l g k with
      | Some a => Some a
      | None => k l g
      end
  | Then r1 r2 => run r1 l g (fun l' g' => run r2 l' g' k)
  | Group r' =>
      run r' l g
        (fun l' _ => k l' (Some (firstn (length l - length l') l)))
  end.

End Matcher.

(** A match at the head of [l]: the matched text and group 1. *)
Definition match_at (r : regexp) (l : jsstring)
  : option (jsstring * option jsstring) :=
  run _ r l None (fun l' g => Some (firstn (length l - length l') l, g)).

(** [text.match(r)] for a pattern without flags: the first position,
    from the left, where the pattern matches. *)
Fixpoint regexp_match (r : regexp) (l : jsstring)
  : option (jsstring * option jsstring) :=
  match match_at r l with
  | Some m => Some m
  | None =>
      match l with
      | [] => None
      | _ :: l' => regexp_match r l'
      end
  end.

(** [[\s\S]] *)
Definition any (c : code_unit) : bool := true.

(** The pattern of line 114: three backticks, an optional [json], white
    space, a lazy group of any characters, white space, three
    backticks. *)
Definition fence_pattern : regexp :=
  Then (Chars fence)
    (Then (Maybe (Chars (js "json")))
       (Then (Many true is_regexp_space)
          (Then (Group (Many false any))
             (Then (Many true is_regexp_space) (Chars fence))))).

(** The pattern of line 119: an opening brace, greedily any characters,
    a closing brace. *)
Definition brace_pattern : regexp :=
  Then (Chars [123]) (Then (Many true any) (Chars [125])).

(** [content.match(fence_pattern)[1]] when the match is not null, as
    [JSON.parse] reads it (an [undefined] group would be read as the text
    [undefined]). *)
Definition fenced_block (content : jsstring) : option jsstring :=
  match regexp_match fence_pattern content with
  | Some (_, Some inner) => Some inner
  | Some (_, None) => Some (js "undefined")
  | None => None
  end.

(** [content.match(brace_pattern)[0]] when the match is not null. *)
Definition brace_span (content : jsstring) : option jsstring :=
  match regexp_match brace_pattern content with
  | Some (span, _) => Some span
  | None => None
  end.

(** The text after the optional tag [json]. *)
Definition skip_tag (r : jsstring) : jsstring :=
  match strip_prefix (js "json") r with
  | Some r' => r'
  | None => r
  end.

(** Group 1 of a match, as [fenced_block] reads it. *)
Definition group1 (m : jsstring * option jsstring) : jsstring :=
  match snd m with
  | Some inner => inner
  | None => js "undefined"
  end.

(** The part of the fence pattern from the group on. *)
Definition from_group : regexp :=
  Then (Group (Many false any))
       (Then (Many true is_regexp_space) (Chars fence)).

(** The part of the fence pattern after the tag. *)
Definition after_tag : regexp :=
  Then (Many true is_regexp_space) from_group.

End Regexp.

(** ** The page [Index] and its call of the edge function *)

Module Page.
Import Str Json Stringify Runtime Edge Report.
Local Open Scope N_scope.

(** The state of [Index].  A [File] is kept by its name. *)
Record State : Type := {
  imageFile : option jsstring;
  imagePreview : option jsstring;
  language : jsstring;
  isAnalyzing : bool;
  analysisData : option json
}.

(** [useState] initial values. *)
Definition initial : State :=
  {| imageFile := None; imagePreview := None; language := js "en";
     isAnalyzing := false; analysisData := None |}.

Definition handleImageSelect (file preview : jsstring) (p : State) : State :=
  {| imageFile := Some file; imagePreview := Some preview;
     language := language p; isAnalyzing := isAnalyzing p;
     analysisData := None |}.

Definition handleClearImage (p : State) : State :=
  {| imageFile := None; imagePreview := None;
     language := language p; isAnalyzing := isAnalyzing p;
     analysisData := None |}.

(** [setLanguage], the [onChange] of the language selector. *)
Definition setLanguage (code : jsstring) (p : State) : State :=
  {| imageFile := imageFile p; imagePreview := imagePreview p;
     language := code; isAnalyzing := isAnalyzing p;
     analysisData := analysisData p |}.

(** The [onLanguageChange] handed to [AnalysisResults]:
    [setLanguage(newLang); setAnalysisData(newData)]. *)
Definition onLanguageChange (newLang : jsstring) (newData : json)
    (p : State) : State :=
  {| imageFile := imageFile p; imagePreview := imagePreview p;
     language := newLang; isAnalyzing := isAnalyzing p;
     analysisData := Some newData |}.

(** The props of [AnalysisResults]: [data], [language] and
    [imagePreview || ''].  The report is rendered unless
    [!analysisData]; for the state [null] and for data that is [null],
    [false], [0] or the empty string the page shows the upload view. *)
Definition results_props (p : State) : option Props :=
  match analysisData p with
  | Some d =>
      if falsy (Some d) then None
      else
        Some {| data := d;
                Report.language := language p;
                Report.imagePreview :=
                  match imagePreview p with
                  | Some i => i
                  | None => []
                  end |}
  | None => None
  end.

Inductive Notice : Type :=
| NoImageSelected
| AnalysisComplete
| AnalysisFailed (description : jsstring).

Inductive Effect : Type :=
| Toast (n : Notice)
| Invoke (imageData : jsstring) (language : jsstring).

(** [!imagePreview]: no preview, or an empty one. *)
Definition no_preview (p : State) : bool :=
  match imagePreview p with
  | None => true
  | Some [] => true
  | Some (_ :: _) => false
  end.

Definition set_analyzing (b : bool) (p : State) : State :=
  {| imageFile := imageFile p; imagePreview := imagePreview p;
     language := language p; isAnalyzing := b;
     analysisData := analysisData p |}.

Definition setAnalysisData (d : json) (p : State) : State :=
  {| imageFile := imageFile p; imagePreview := imagePreview p;
     language := language p; isAnalyzing := isAnalyzing p;
     analysisData := Some d |}.

(** [handleAnalyze], over what [supabase.functions.invoke] resolves
    to. *)
Definition handleAnalyze (invoke : jsstring -> jsstring -> InvokeResult)
    (p : State) : State * list Effect :=
  if no_preview p then (p, [Toast NoImageSelected])
  else
    let image := match imagePreview p with Some i => i | None => [] end in
    let asked := Invoke image (language p) in
    match invoke image (language p) with
    | Failure m =>
        (set_analyzing false (set_analyzing true p),
         [asked; Toast (AnalysisFailed m)])
    | Data d =>
        (set_analyzing false (setAnalysisData d (set_analyzing true p)),
         [asked; Toast AnalysisComplete])
    end.

(** [JSON.stringify({ imageData, language })], the body that
    [supabase.functions.invoke] posts. *)
Definition invoke_body (imageData language : jsstring) : jsstring :=
  object [member "imageData" (quote imageData);
          member "language" (quote language)].


End Page.

(** ** The severity badge *)

Module Widgets.
Import Str Json Report.
Local Open Scope N_scope.

Definition colors : list (string * string) :=
  [ ("low", "bg-success text-white");
    ("moderate", "bg-warning text-white");
    ("high", "bg-destructive text-white");
    ("critical", "bg-destructive text-white") ].

(** What a property read on [colors] can give: one of its class names,
    or the inherited member of that name. *)
Inductive color : Type :=
| Class (name : string)
| InheritedMember (name : string).

(** [colors[severity] || colors.moderate] *)
Definition getSeverityColor (severity : jsstring) : color :=
  match find (fun kv => Str.eqb severity (js (fst kv))) colors with
  | Some (_, c) =>
      match c with
      | EmptyString => Class "bg-warning text-white"
      | _ => Class c
      end
  | None =>
      match find (fun name => Str.eqb severity (js name)) Object_prototype with
      | Some name => InheritedMember name
      | None => Class "bg-warning text-white"
      end
  end.

End Widgets.

(** ** Concrete inputs used below *)

Module Examples.
Import Str Json Stringify Runtime Schema Edge Report.
Local Open Scope N_scope.

Definition leaf_blight : AnalysisData :=
  {| diseaseName := js "Leaf Blight";
     scientificName := js "Alternaria solani";
     confidence := 87;
     severity := high;
     description := js "Dark " ++ quote (js "target")
                       ++ js " spots on older leaves.";
     symptoms := [js "brown spots"; js "yellow halo"];
     causes := [js "fungus"];
     treatment := [js "remove leaves"; js "apply fungicide"];
     prevention := [js "rotate crops"];
     affectedParts := [js "leaves"; js "stems"];
     spreadRate := js "moderate" |}.

(** The same diagnosis with a confidence outside [0..100]. *)
Definition overconfident : AnalysisData :=
  {| diseaseName := js "Leaf Blight";
     scientificName := js "Alternaria solani";
     confidence := 150;
     severity := high;
     description := js "Dark spots.";
     symptoms := [js "brown spots"];
     causes := [js "fungus"];
     treatment := [js "remove leaves"];
     prevention := [js "rotate crops"];
     affectedParts := [js "leaves"];
     spreadRate := js "moderate" |}.

(** A valid record whose description quotes a code fence. *)
Definition fence_in_text : AnalysisData :=
  {| diseaseName := js "Leaf Blight";
     scientificName := js "Alternaria solani";
     confidence := 87;
     severity := high;
     description := js "Label the sample ```blight``` in the log.";
     symptoms := [js "brown spots"];
     causes := [js "fungus"];
     treatment := [js "remove leaves"];
     prevention := [js "rotate crops"];
     affectedParts := [js "leaves"];
     spreadRate := js "moderate" |}.

(** A reply that fences the JSON text [t] after a sentence. *)
Definition fenced (t : jsstring) : jsstring :=
  js "Here you go:" ++ [10] ++ fence ++ js "json" ++ [10] ++ t
     ++ [10] ++ fence ++ js " Hope this helps.".

(** The text of the object with the one member [a: 1]. *)
Definition small_object : jsstring := object [member "a" (js "1")].

(** A reply with a fenced block that is not JSON, then a JSON object. *)
Definition broken_fence : jsstring :=
  fence ++ js "json" ++ [10] ++ js "oops" ++ [10] ++ fence ++ [10]
        ++ small_object.

(** The body of a gateway response whose first choice has the message
    content [content]. *)
Definition completion (content : jsstring) : jsstring :=
  object
    [member "choices"
       (91 :: object [member "message"
                        (object [member "content" (quote content)])]
           ++ [93])].

(** The value of a gateway body with one choice. *)
Definition completion_value (content : jsstring) : json :=
  JObject [(js "choices",
            JArray [JObject [(js "message",
                              JObject [(js "content", JString content)])]])].

Definition analyze_request : Request :=
  {| method := js "POST";
     payload :=
       object [member "imageData" (quote (js "data:image/png;base64,AAAA"));
               member "language" (quote (js "hi"))] |}.

Definition api_key : option jsstring := Some (js "secret").

(** A gateway that always answers with the given status and body. *)
Definition gateway (status : Z) (text : jsstring)
  : FetchRequest -> FetchOutcome :=
  fun _ => Replied status text.

(** A mounted report in English. *)
Definition english_report : View :=
  {| props := {| data := to_json leaf_blight;
                 language := js "en";
                 imagePreview := js "data:image/png;base64,AAAA" |};
     currentData := to_json leaf_blight;
     currentLanguage := js "en";
     isGeneratingPDF := false;
     mounted := true |}.

Definition failing_invoke : jsstring -> jsstring -> InvokeResult :=
  fun _ _ => Failure (js "Edge Function returned a non-2xx status code").

Definition translating_invoke : jsstring -> jsstring -> InvokeResult :=
  fun _ _ => Data (to_json overconfident).

Definition capture_works : Surface -> option jsstring := fun _ => None.

Definition capture_breaks : Surface -> option jsstring :=
  fun _ => Some (js "Unable to find element in cloned iframe").

End Examples.

(** ** Vocabulary of the properties *)

Module Terms.
Import Str Json Stringify Runtime Schema Edge Report Examples.
Local Open Scope N_scope.

(** *** Parsers *)

(** A parser reads at least one code unit. *)
Definition shrinks {A : Type} (p : jsstring -> presult A) : Prop :=
  forall l a r, p l = POk a r -> (length r < length l)%nat.

(** [q] agrees with [p] wherever [p] did not run out of fuel. *)
Definition extends {A : Type} (p q : jsstring -> presult A) : Prop :=
  forall l, p l <> PFuel -> q l = p l.

(** A decimal digit. *)
Definition digit (d : code_unit) : Prop := 48 <= d <= 57.

(** The characters that follow a value in an array or an object. *)
Definition delimiter (t : code_unit) : Prop := t = 44 \/ t = 93 \/ t = 125.

(** The text [txt], followed by a delimiter, reads as the value [v] with
    any fuel from [f0] on. *)
Definition reads (f0 : nat) (txt : jsstring) (v : json) : Prop :=
  forall f t tl, (f0 <= f)%nat -> delimiter t ->
    parse_value f (txt ++ t :: tl) = POk v (t :: tl).

(** The members of an object: a key, the text of a value, the value. *)
Definition member_text (it : jsstring * jsstring * json) : jsstring :=
  quote (fst (fst it)) ++ 58 :: snd (fst it).

Definition member_value (it : jsstring * jsstring * json)
  : jsstring * json :=
  (fst (fst it), snd it).

(** Key, serialised value and value of each member of a record. *)
Definition record_items (r : AnalysisData)
  : list (jsstring * jsstring * json) :=
  [ (js "diseaseName", quote (diseaseName r), JString (diseaseName r));
    (js "scientificName", quote (scientificName r),
       JString (scientificName r));
    (js "confidence", integer (confidence r), JNumber (confidence r) 0);
    (js "severity", quote (js (severity_name (severity r))),
       JString (js (severity_name (severity r))));
    (js "description", quote (description r), JString (description r));
    (js "symptoms", string_array (symptoms r), strings (symptoms r));
    (js "causes", string_array (causes r), strings (causes r));
    (js "treatment", string_array (treatment r), strings (treatment r));
    (js "prevention", string_array (prevention r), strings (prevention r));
    (js "affectedParts", string_array (affectedParts r),
       strings (affectedParts r));
    (js "spreadRate", quote (spreadRate r), JString (spreadRate r)) ].

Definition record_fuel (r : AnalysisData) : nat :=
  2 + length (symptoms r) + length (causes r) + length (treatment r)
  + length (prevention r) + length (affectedParts r).

(** White space of JSON. *)
Definition json_spaces (ws : jsstring) : Prop :=
  Forall (fun c => is_json_ws c = true) ws.

(** *** The fence pattern *)

(** White space of a regular expression. *)
Definition spaces (ws : jsstring) : Prop :=
  Forall (fun c => is_regexp_space c = true) ws.

(** The tag of the fence as the pattern takes it. *)
Definition tag (t : jsstring) : Prop := t = [] \/ t = js "json".

(** *** Responses of the edge function *)



(** A 500 whose body is [{ error }]. *)
Definition failure (r : Response) : Prop :=
  exists m, r = {| status := 500%Z; body := ErrorBody m |}.


(** The handler's answer to what [parse_reply] gives. *)
Definition answer_of (r : result json) : Response :=
  match r with
  | Ok v => {| status := 200%Z; body := JsonBody v |}
  | Throw e => {| status := 500%Z; body := ErrorBody (error_message e) |}
  end.






(** *** The report session *)

(** Is the effect an analysis call? *)
Definition is_invoke (e : Report.Effect) : bool :=
  match e with
  | Report.Invoke _ _ => true
  | _ => false
  end.


(** The record and the language a component holds. *)
Definition held (v : View) : json * jsstring :=
  (currentData v, currentLanguage v).

(** The call that the handler makes for the request body the client
    posts. *)
Definition forwarded (key : option jsstring) (imageData language : jsstring)
  : FetchRequest :=
  {| bearer := credential key;
     prompt_language := language;
     image_url := Some (JString imageData) |}.

End Terms.

(* ================================================================== *)
(** * Part II: properties                                              *)
(* ================================================================== *)

Import Str Json Stringify Runtime Schema Edge Report Regexp Terms Examples.
Import Widgets.

(** ** Strings *)

Section StringFacts.
Local Open Scope N_scope.

Lemma eqb_refl (a : jsstring) : Str.eqb a a = true.
Proof.
  induction a as [|x a IH]; simpl; [reflexivity|].
  now rewrite N.eqb_refl, IH.
Qed.

Lemma eqb_eq (a b : jsstring) : Str.eqb a b = true <-> a = b.
Proof.
  split.
  - revert b; induction a as [|x a IH]; intros [|y b]; simpl;
      try discriminate; [reflexivity|].
    intros H; apply andb_true_iff in H as [Hx Hr].
    apply N.eqb_eq in Hx; subst; f_equal; now apply IH.
  - intros ->; apply eqb_refl.
Qed.

Lemma strip_prefix_app (p l : jsstring) : strip_prefix p (p ++ l) = Some l.
Proof.
  induction p as [|x p IH]; simpl; [reflexivity|].
  now rewrite N.eqb_refl.
Qed.

Lemma strip_prefix_Some (p l r : jsstring) :
  strip_prefix p l = Some r -> l = p ++ r.
Proof.
  revert l; induction p as [|x p IH]; intros l; simpl.
  - now intros [= ->].
  - destruct l as [|y l]; [discriminate|].
    destruct (x =? y) eqn:E; [|discriminate].
    apply N.eqb_eq in E; subst; intros H; f_equal; now apply IH.
Qed.

End StringFacts.

(** ** The parser: how much it reads, and its fuel *)

Section ParserFacts.
Local Open Scope N_scope.

Lemma skip_ws_length (l : jsstring) : (length (skip_ws l) <= length l)%nat.
Proof.
  induction l as [|c l IH]; simpl; [lia|].
  destruct (is_json_ws c); simpl; lia.
Qed.

Lemma skip_ws_cons (l r : jsstring) (c : code_unit) :
  skip_ws l = c :: r -> (length r < length l)%nat.
Proof.
  intros H; pose proof (skip_ws_length l) as L; rewrite H in L; simpl in L; lia.
Qed.

Lemma parse_string_body_shrinks (l s r : jsstring) :
  parse_string_body l = Some (s, r) -> (length r < length l)%nat.
Proof.
  remember (length l) as n eqn:Hn.
  assert (Hle : (length l <= n)%nat) by lia; clear Hn.
  revert l s r Hle; induction n as [|n IH]; intros l s r Hle.
  - destruct l; [discriminate|simpl in Hle; lia].
  - destruct l as [|c rest]; [discriminate|]; simpl in Hle |- *.
    destruct (c =? 34); [intros [= <- <-]; lia|].
    destruct (c =? 92).
    + destruct rest as [|e rest']; [discriminate|].
      destruct (e =? 117).
      * destruct rest' as [|h1 [|h2 [|h3 [|h4 rest'']]]]; try discriminate.
        destruct (hex4 h1 h2 h3 h4); [|discriminate].
        destruct (parse_string_body rest'') as [[s' r']|] eqn:E;
          [|discriminate].
        intros [= <- <-]; apply IH in E; simpl in *; lia.
      * destruct (unescape e); [|discriminate].
        destruct (parse_string_body rest') as [[s' r']|] eqn:E;
          [|discriminate].
        intros [= <- <-]; apply IH in E; simpl in *; lia.
    + destruct (c <? 32); [discriminate|].
      destruct (parse_string_body rest) as [[s' r']|] eqn:E; [|discriminate].
      intros [= <- <-]; apply IH in E; simpl in *; lia.
Qed.

Lemma span_digits_length (l : jsstring) :
  (length (snd (span_digits l)) <= length l)%nat.
Proof.
  induction l as [|c l IH]; simpl; [lia|].
  destruct (is_digit c); simpl; [|lia].
  destruct (span_digits l); simpl in *; lia.
Qed.

Lemma parse_frac_length (l ds r : jsstring) :
  parse_frac l = Some (ds, r) -> (length r <= length l)%nat.
Proof.
  unfold parse_frac; destruct l as [|c l]; [now intros [= <- <-]|].
  destruct (c =? 46); [|now intros [= <- <-]].
  pose proof (span_digits_length l) as L.
  destruct (span_digits l) as [[|d ds'] r']; [discriminate|].
  intros [= <- <-]; simpl in *; lia.
Qed.

Lemma exp_digits_length (neg : bool) (l r : jsstring) (x : Z) :
  exp_digits neg l = Some (x, r) -> (length r <= length l)%nat.
Proof.
  unfold exp_digits; pose proof (span_digits_length l) as L.
  destruct (span_digits l) as [[|d ds] r']; [discriminate|].
  intros [= <- <-]; simpl in *; lia.
Qed.

Lemma parse_exp_length (l r : jsstring) (x : Z) :
  parse_exp l = Some (x, r) -> (length r <= length l)%nat.
Proof.
  unfold parse_exp; destruct l as [|c l]; [now intros [= <- <-]|].
  destruct ((c =? 101) || (c =? 69)); [|now intros [= <- <-]].
  destruct l as [|s r0]; [discriminate|].
  destruct (s =? 45); [|destruct (s =? 43)];
    intros E; apply exp_digits_length in E; simpl in *; lia.
Qed.

Lemma unsigned_number_shrinks (neg : bool) (l r : jsstring) (v : json) :
  unsigned_number neg l = Some (v, r) -> (length r < length l)%nat.
Proof.
  unfold unsigned_number; destruct l as [|c r0]; [discriminate|].
  destruct (is_digit c) eqn:D; [|discriminate].
  assert (L2 : (length (snd (if (c =? 48)%N then ([c], r0)
                             else span_digits (c :: r0))) <= length r0)%nat).
  { destruct (c =? 48); simpl; [lia|].
    rewrite D. pose proof (span_digits_length r0).
    destruct (span_digits r0); simpl in *; lia. }
  destruct (if c =? 48 then ([c], r0) else span_digits (c :: r0))
    as [ip l2]; simpl in L2.
  destruct (parse_frac l2) as [[fp l3]|] eqn:F; [|discriminate].
  destruct (parse_exp l3) as [[ex l4]|] eqn:X; [|discriminate].
  apply parse_frac_length in F; apply parse_exp_length in X.
  intros [= <- <-]; simpl in *; lia.
Qed.

Lemma parse_number_shrinks (l r : jsstring) (v : json) :
  parse_number l = Some (v, r) -> (length r < length l)%nat.
Proof.
  unfold parse_number; destruct l as [|c l']; [discriminate|].
  destruct (c =? 45); intros E; apply unsigned_number_shrinks in E;
    simpl in *; lia.
Qed.

Lemma strip_prefix_length (p l r : jsstring) :
  strip_prefix p l = Some r -> (length l = length p + length r)%nat.
Proof.
  intros H; apply strip_prefix_Some in H; subst; apply length_app.
Qed.

Ltac call_of p x H :=
  let E := fresh "E" in
  pose proof (H x) as E;
  destruct (p x) eqn:?; [rewrite E by discriminate | rewrite E by discriminate
                        | try congruence].

Lemma value_body_extends e e' m m' :
  extends e e' -> extends m m' ->
  extends (value_body e m) (value_body e' m').
Proof.
  intros He Hm l; unfold value_body.
  destruct (skip_ws l) as [|c rest]; [reflexivity|].
  destruct (c =? 123).
  { destruct (skip_ws rest) as [|c' rest']; [reflexivity|].
    destruct (c' =? 125); [reflexivity|].
    call_of m (c' :: rest') Hm; reflexivity. }
  destruct (c =? 91); [|reflexivity].
  destruct (skip_ws rest) as [|c' rest']; [reflexivity|].
  destruct (c' =? 93); [reflexivity|].
  call_of e (c' :: rest') He; reflexivity.
Qed.

Lemma elements_body_extends v v' e e' :
  extends v v' -> extends e e' ->
  extends (elements_body v e) (elements_body v' e').
Proof.
  intros Hv He l; unfold elements_body.
  call_of v l Hv; [|reflexivity].
  destruct (skip_ws rest) as [|c r']; [reflexivity|].
  destruct (c =? 44); [|reflexivity].
  call_of e r' He; reflexivity.
Qed.

Lemma members_body_extends v v' m m' :
  extends v v' -> extends m m' ->
  extends (members_body v m) (members_body v' m').
Proof.
  intros Hv Hm l; unfold members_body.
  destruct (skip_ws l) as [|c r0]; [reflexivity|].
  destruct (c =? 34); [|reflexivity].
  destruct (parse_string_body r0) as [[k r1]|]; [|reflexivity].
  destruct (skip_ws r1) as [|c1 r2]; [reflexivity|].
  destruct (c1 =? 58); [|reflexivity].
  call_of v r2 Hv; [|reflexivity].
  destruct (skip_ws rest) as [|c3 r4]; [reflexivity|].
  destruct (c3 =? 44); [|reflexivity].
  call_of m r4 Hm; reflexivity.
Qed.

(** One more unit of fuel changes no result. *)
Lemma parse_fuel_step (f : nat) :
  extends (parse_value f) (parse_value (S f))
  /\ extends (parse_elements f) (parse_elements (S f))
  /\ extends (parse_members f) (parse_members (S f)).
Proof.
  induction f as [|f (IHv & IHe & IHm)].
  - repeat split; intros l H; simpl in H; congruence.
  - repeat split.
    + exact (value_body_extends _ _ _ _ IHe IHm).
    + exact (elements_body_extends _ _ _ _ IHv IHe).
    + exact (members_body_extends _ _ _ _ IHv IHm).
Qed.

Lemma parse_value_fuel_mono (f f' : nat) (l : jsstring) :
  (f <= f')%nat -> parse_value f l <> PFuel ->
  parse_value f' l = parse_value f l.
Proof.
  induction 1 as [|g Hle IH]; [reflexivity|].
  intros H; rewrite <- (IH H).
  apply (proj1 (parse_fuel_step g)); rewrite (IH H); exact H.
Qed.

Lemma parse_elements_fuel_mono (f f' : nat) (l : jsstring) :
  (f <= f')%nat -> parse_elements f l <> PFuel ->
  parse_elements f' l = parse_elements f l.
Proof.
  induction 1 as [|g Hle IH]; [reflexivity|].
  intros H; rewrite <- (IH H).
  apply (proj1 (proj2 (parse_fuel_step g))); rewrite (IH H); exact H.
Qed.

Lemma parse_members_fuel_mono (f f' : nat) (l : jsstring) :
  (f <= f')%nat -> parse_members f l <> PFuel ->
  parse_members f' l = parse_members f l.
Proof.
  induction 1 as [|g Hle IH]; [reflexivity|].
  intros H; rewrite <- (IH H).
  apply (proj2 (proj2 (parse_fuel_step g))); rewrite (IH H); exact H.
Qed.

Lemma value_body_shrinks e m :
  shrinks e -> shrinks m -> shrinks (value_body e m).
Proof.
  intros He Hm l a r; unfold value_body.
  destruct (skip_ws l) as [|c rest] eqn:W; [discriminate|].
  apply skip_ws_cons in W.
  destruct (c =? 123).
  { destruct (skip_ws rest) as [|c' rest'] eqn:W'; [discriminate|].
    pose proof (skip_ws_length rest) as L; rewrite W' in L.
    destruct (c' =? 125); [intros [= <- <-]; simpl in *; lia|].
    destruct (m (c' :: rest')) eqn:E; try discriminate.
    intros [= <- <-]; apply Hm in E; simpl in *; lia. }
  destruct (c =? 91).
  { destruct (skip_ws rest) as [|c' rest'] eqn:W'; [discriminate|].
    pose proof (skip_ws_length rest) as L; rewrite W' in L.
    destruct (c' =? 93); [intros [= <- <-]; simpl in *; lia|].
    destruct (e (c' :: rest')) eqn:E; try discriminate.
    intros [= <- <-]; apply He in E; simpl in *; lia. }
  destruct (c =? 34).
  { destruct (parse_string_body rest) as [[s r']|] eqn:E; [|discriminate].
    intros [= <- <-]; apply parse_string_body_shrinks in E; lia. }
  destruct ((c =? 45) || is_digit c).
  { destruct (parse_number (c :: rest)) as [[v r']|] eqn:E; [|discriminate].
    intros [= <- <-]; apply parse_number_shrinks in E; simpl in *; lia. }
  destruct (strip_prefix lit_true (c :: rest)) eqn:T.
  { intros [= <- <-]; apply strip_prefix_length in T; simpl in *; lia. }
  destruct (strip_prefix lit_false (c :: rest)) eqn:F.
  { intros [= <- <-]; apply strip_prefix_length in F; simpl in *; lia. }
  destruct (strip_prefix lit_null (c :: rest)) eqn:U; [|discriminate].
  intros [= <- <-]; apply strip_prefix_length in U; simpl in *; lia.
Qed.

Lemma elements_body_shrinks v e :
  shrinks v -> shrinks e -> shrinks (elements_body v e).
Proof.
  intros Hv He l a r; unfold elements_body.
  destruct (v l) as [x r1| |] eqn:E; try discriminate.
  apply Hv in E.
  destruct (skip_ws r1) as [|c r'] eqn:W; [discriminate|].
  apply skip_ws_cons in W.
  destruct (c =? 44).
  - destruct (e r') eqn:E'; try discriminate.
    intros [= <- <-]; apply He in E'; lia.
  - destruct (c =? 93); [|discriminate]. intros [= <- <-]; lia.
Qed.

Lemma members_body_shrinks v m :
  shrinks v -> shrinks m -> shrinks (members_body v m).
Proof.
  intros Hv Hm l a r; unfold members_body.
  destruct (skip_ws l) as [|c r0] eqn:W; [discriminate|].
  apply skip_ws_cons in W.
  destruct (c =? 34); [|discriminate].
  destruct (parse_string_body r0) as [[k r1]|] eqn:K; [|discriminate].
  apply parse_string_body_shrinks in K.
  destruct (skip_ws r1) as [|c1 r2] eqn:W1; [discriminate|].
  apply skip_ws_cons in W1.
  destruct (c1 =? 58); [|discriminate].
  destruct (v r2) as [x r3| |] eqn:E; try discriminate.
  apply Hv in E.
  destruct (skip_ws r3) as [|c3 r4] eqn:W3; [discriminate|].
  apply skip_ws_cons in W3.
  destruct (c3 =? 44).
  - destruct (m r4) eqn:E'; try discriminate.
    intros [= <- <-]; apply Hm in E'; lia.
  - destruct (c3 =? 125); [|discriminate]. intros [= <- <-]; lia.
Qed.

Lemma parse_shrinks (f : nat) :
  shrinks (parse_value f) /\ shrinks (parse_elements f)
  /\ shrinks (parse_members f).
Proof.
  induction f as [|f (IHv & IHe & IHm)].
  - repeat split; intros l a r; discriminate.
  - repeat split.
    + exact (value_body_shrinks _ _ IHe IHm).
    + exact (elements_body_shrinks _ _ IHv IHe).
    + exact (members_body_shrinks _ _ IHv IHm).
Qed.

Lemma value_body_total e m (l : jsstring) :
  (forall x, (length x < length l)%nat -> e x <> PFuel) ->
  (forall x, (length x < length l)%nat -> m x <> PFuel) ->
  value_body e m l <> PFuel.
Proof.
  intros He Hm; unfold value_body.
  destruct (skip_ws l) as [|c rest] eqn:W; [discriminate|].
  apply skip_ws_cons in W.
  destruct (c =? 123).
  { destruct (skip_ws rest) as [|c' rest'] eqn:W'; [discriminate|].
    pose proof (skip_ws_length rest) as L; rewrite W' in L.
    destruct (c' =? 125); [discriminate|].
    specialize (Hm (c' :: rest')).
    destruct (m (c' :: rest')); try discriminate.
    exfalso; apply Hm; [lia|reflexivity]. }
  destruct (c =? 91).
  { destruct (skip_ws rest) as [|c' rest'] eqn:W'; [discriminate|].
    pose proof (skip_ws_length rest) as L; rewrite W' in L.
    destruct (c' =? 93); [discriminate|].
    specialize (He (c' :: rest')).
    destruct (e (c' :: rest')); try discriminate.
    exfalso; apply He; [lia|reflexivity]. }
  destruct (c =? 34).
  { destruct (parse_string_body rest) as [[s r']|]; discriminate. }
  destruct ((c =? 45) || is_digit c).
  { destruct (parse_number (c :: rest)) as [[v r']|]; discriminate. }
  destruct (strip_prefix lit_true (c :: rest)); [discriminate|].
  destruct (strip_prefix lit_false (c :: rest)); [discriminate|].
  destruct (strip_prefix lit_null (c :: rest)); discriminate.
Qed.

Lemma elements_body_total v e (l : jsstring) :
  shrinks v -> v l <> PFuel ->
  (forall x, (length x + 2 <= length l)%nat -> e x <> PFuel) ->
  elements_body v e l <> PFuel.
Proof.
  intros Sv Hv He; unfold elements_body.
  destruct (v l) as [x r1| |] eqn:E; [|discriminate|congruence].
  apply Sv in E.
  destruct (skip_ws r1) as [|c r'] eqn:W; [discriminate|].
  apply skip_ws_cons in W.
  destruct (c =? 44).
  - specialize (He r'). destruct (e r'); try discriminate.
    exfalso; apply He; [lia|reflexivity].
  - destruct (c =? 93); discriminate.
Qed.

Lemma members_body_total v m (l : jsstring) :
  shrinks v ->
  (forall x, (length x + 2 <= length l)%nat -> v x <> PFuel) ->
  (forall x, (length x + 3 <= length l)%nat -> m x <> PFuel) ->
  members_body v m l <> PFuel.
Proof.
  intros Sv Hv Hm; unfold members_body.
  destruct (skip_ws l) as [|c r0] eqn:W; [discriminate|].
  apply skip_ws_cons in W.
  destruct (c =? 34); [|discriminate].
  destruct (parse_string_body r0) as [[k r1]|] eqn:K; [|discriminate].
  apply parse_string_body_shrinks in K.
  destruct (skip_ws r1) as [|c1 r2] eqn:W1; [discriminate|].
  apply skip_ws_cons in W1.
  destruct (c1 =? 58); [|discriminate].
  specialize (Hv r2).
  destruct (v r2) as [x r3| |] eqn:E;
    [|discriminate|exfalso; apply Hv; [lia|reflexivity]].
  apply Sv in E.
  destruct (skip_ws r3) as [|c3 r4] eqn:W3; [discriminate|].
  apply skip_ws_cons in W3.
  destruct (c3 =? 44).
  - specialize (Hm r4). destruct (m r4); try discriminate.
    exfalso; apply Hm; [lia|reflexivity].
  - destruct (c3 =? 125); discriminate.
Qed.

(** Fuel above twice the length of the input is never exhausted. *)
Lemma parse_fuel_adequate (f : nat) :
  (forall l, (2 * length l < f)%nat -> parse_value f l <> PFuel)
  /\ (forall l, (2 * length l + 1 < f)%nat -> parse_elements f l <> PFuel)
  /\ (forall l, (2 * length l + 1 < f)%nat -> parse_members f l <> PFuel).
Proof.
  induction f as [|f (IHv & IHe & IHm)].
  - repeat split; intros l H; lia.
  - repeat split; intros l H.
    + apply value_body_total; intros x Hx; [apply IHe | apply IHm]; lia.
    + apply elements_body_total.
      * apply parse_shrinks.
      * apply IHv; lia.
      * intros x Hx; apply IHe; lia.
    + apply members_body_total.
      * apply parse_shrinks.
      * intros x Hx; apply IHv; lia.
      * intros x Hx; apply IHm; lia.
Qed.

(** [JSON_parse] never fails for lack of fuel: a [None] is a syntax
    error. *)
Lemma JSON_parse_fuel_adequate (text : jsstring) :
  parse_value (2 * length text + 1) text <> PFuel.
Proof. apply parse_fuel_adequate; lia. Qed.

(** Any amount of fuel that lets the parser finish gives the result of
    [JSON_parse]. *)
Lemma JSON_parse_intro (f : nat) (text rest : jsstring) (v : json) :
  parse_value f text = POk v rest -> skip_ws rest = [] ->
  JSON_parse text = Some v.
Proof.
  intros H W; unfold JSON_parse.
  pose proof (JSON_parse_fuel_adequate text) as A.
  assert (E : parse_value (2 * length text + 1) text = POk v rest).
  { destruct (Nat.le_ge_cases f (2 * length text + 1)) as [L|L].
    - rewrite (parse_value_fuel_mono _ _ _ L); [exact H|].
      rewrite H; discriminate.
    - rewrite <- (parse_value_fuel_mono _ _ _ L A); exact H. }
  now rewrite E, W.
Qed.

End ParserFacts.

(** ** Serialise, then parse *)

Section RoundTrip.
Local Open Scope N_scope.

Lemma hex_value_hex_digit (n : N) :
  n < 16 -> hex_value (hex_digit n) = Some n.
Proof.
  intros H; unfold hex_value, hex_digit.
  destruct (N.ltb_spec n 10) as [L|L].
  - replace ((48 <=? 48 + n) && (48 + n <=? 57)) with true.
    + f_equal; lia.
    + symmetry; apply andb_true_iff; split; apply N.leb_le; lia.
  - replace ((48 <=? 87 + n) && (87 + n <=? 57)) with false.
    + replace ((97 <=? 87 + n) && (87 + n <=? 102)) with true.
      * f_equal; lia.
      * symmetry; apply andb_true_iff; split; apply N.leb_le; lia.
    + symmetry; apply andb_false_iff; right; apply N.leb_gt; lia.
Qed.

Lemma hex4_unicode_escape (c : code_unit) :
  c < 65536 ->
  hex4 (hex_digit (c / 4096 mod 16)) (hex_digit (c / 256 mod 16))
       (hex_digit (c / 16 mod 16)) (hex_digit (c mod 16)) = Some c.
Proof.
  intros H; unfold hex4.
  rewrite !hex_value_hex_digit by (apply N.mod_lt; discriminate).
  f_equal.
  replace (c / 4096) with (c / 16 / 16 / 16)
    by (rewrite !N.Div0.div_div; reflexivity).
  replace (c / 256) with (c / 16 / 16)
    by (rewrite !N.Div0.div_div; reflexivity).
  pose proof (N.div_mod c 16).
  pose proof (N.div_mod (c / 16) 16).
  pose proof (N.div_mod (c / 16 / 16) 16).
  pose proof (N.div_mod (c / 16 / 16 / 16) 16).
  pose proof (N.mod_lt c 16).
  pose proof (N.mod_lt (c / 16) 16).
  pose proof (N.mod_lt (c / 16 / 16) 16).
  pose proof (N.mod_lt (c / 16 / 16 / 16) 16).
  assert (c / 16 / 16 / 16 / 16 = 0).
  { rewrite !N.Div0.div_div; apply N.div_small; exact H. }
  lia.
Qed.

Lemma parse_unicode_escape (c : code_unit) (l : jsstring) :
  c < 65536 ->
  parse_string_body (unicode_escape c ++ l) = consr c (parse_string_body l).
Proof.
  intros H; unfold unicode_escape.
  change (parse_string_body ([92; 117; hex_digit (c / 4096 mod 16);
            hex_digit (c / 256 mod 16); hex_digit (c / 16 mod 16);
            hex_digit (c mod 16)] ++ l))
    with (match hex4 (hex_digit (c / 4096 mod 16))
                     (hex_digit (c / 256 mod 16))
                     (hex_digit (c / 16 mod 16)) (hex_digit (c mod 16)) with
          | Some u => consr u (parse_string_body l)
          | None => None
          end).
  now rewrite hex4_unicode_escape.
Qed.

Lemma parse_verbatim (c : code_unit) (l : jsstring) :
  c <> 34 -> c <> 92 -> 32 <= c ->
  parse_string_body (c :: l) = consr c (parse_string_body l).
Proof.
  intros H1 H2 H3; cbn [parse_string_body].
  apply N.eqb_neq in H1, H2; rewrite H1, H2.
  now replace (c <? 32) with false by (symmetry; apply N.ltb_ge; exact H3).
Qed.

(** A quoted string reads back as itself. *)
Lemma parse_quote_body (s tl : jsstring) :
  parse_string_body (quote_body s ++ 34 :: tl) = Some (s, tl).
Proof.
  remember (length s) as n eqn:Hn.
  assert (Hle : (length s <= n)%nat) by lia; clear Hn.
  revert s Hle; induction n as [|n IH]; intros s Hle.
  { destruct s; [reflexivity|simpl in Hle; lia]. }
  destruct s as [|c rest]; [reflexivity|].
  simpl in Hle. assert (IHr := IH rest ltac:(lia)).
  cbn [quote_body].
  destruct (N.eqb_spec c 8) as [->|N8]; [simpl; now rewrite IHr|].
  destruct (N.eqb_spec c 9) as [->|N9]; [simpl; now rewrite IHr|].
  destruct (N.eqb_spec c 10) as [->|N10]; [simpl; now rewrite IHr|].
  destruct (N.eqb_spec c 12) as [->|N12]; [simpl; now rewrite IHr|].
  destruct (N.eqb_spec c 13) as [->|N13]; [simpl; now rewrite IHr|].
  destruct (N.eqb_spec c 34) as [->|N34]; [simpl; now rewrite IHr|].
  destruct (N.eqb_spec c 92) as [->|N92]; [simpl; now rewrite IHr|].
  destruct (N.ltb_spec c 32) as [L32|G32].
  { rewrite <- app_assoc, parse_unicode_escape by lia. now rewrite IHr. }
  unfold is_high_surrogate, is_low_surrogate.
  destruct (N.leb_spec 55296 c) as [H1|H1];
    destruct (N.leb_spec c 56319) as [H2|H2]; cbn [andb].
  - destruct rest as [|d rest'].
    + rewrite parse_unicode_escape by lia. reflexivity.
    + destruct (N.leb_spec 56320 d) as [H3|H3];
        destruct (N.leb_spec d 57343) as [H4|H4]; cbn [andb].
      * simpl in Hle. cbn [app].
        rewrite !parse_verbatim by lia.
        now rewrite (IH rest' ltac:(lia)).
      * rewrite <- app_assoc, parse_unicode_escape by lia. now rewrite IHr.
      * rewrite <- app_assoc, parse_unicode_escape by lia. now rewrite IHr.
      * rewrite <- app_assoc, parse_unicode_escape by lia. now rewrite IHr.
  - destruct (N.leb_spec 56320 c) as [H3|H3];
      destruct (N.leb_spec c 57343) as [H4|H4]; cbn [andb]; try lia.
    + rewrite <- app_assoc, parse_unicode_escape by lia. now rewrite IHr.
    + cbn [app]. rewrite parse_verbatim by lia. now rewrite IHr.
  - destruct (N.leb_spec 56320 c) as [H3|H3]; cbn [andb]; try lia.
    cbn [app]. rewrite parse_verbatim by lia. now rewrite IHr.
  - lia.
Qed.

(** *** Integers *)

Lemma is_digit_true (d : code_unit) : digit d -> is_digit d = true.
Proof.
  intros [H1 H2]; unfold is_digit.
  apply andb_true_iff; split; apply N.leb_le; assumption.
Qed.

Lemma digits_value_snoc (l : jsstring) (d : code_unit) :
  digits_value (l ++ [d]) = 10 * digits_value l + (d - 48).
Proof. unfold digits_value; now rewrite fold_left_app. Qed.

Lemma div10_bound (n x : N) : n < 2 * x -> n / 10 < x.
Proof.
  intros H. pose proof (N.div_mod n 10 ltac:(discriminate)) as Hd.
  remember (n / 10) as q. remember (n mod 10) as m. clear Heqq Heqm.
  lia.
Qed.

(** With enough fuel the digits of [n] are digits, give back [n], and
    start with a zero only for [n = 0]. *)
Lemma digits_fuel_spec (f : nat) (n : N) :
  n < 2 ^ N.of_nat f ->
  exists d rest,
    digits_fuel (S f) n = d :: rest
    /\ digit d /\ Forall digit rest
    /\ digits_value (d :: rest) = n
    /\ (d = 48 -> rest = []).
Proof.
  revert n; induction f as [|f IH]; intros n Hn.
  - assert (n = 0) by (simpl in Hn; lia); subst.
    exists 48, []; unfold digit; repeat split; auto; lia.
  - change (digits_fuel (S (S f)) n)
      with ((if n <? 10 then [] else digits_fuel (S f) (n / 10))
            ++ [48 + n mod 10]).
    pose proof (N.mod_lt n 10 ltac:(discriminate)) as Hm.
    pose proof (N.div_mod n 10 ltac:(discriminate)) as Hd.
    assert (Hq : n / 10 < 2 ^ N.of_nat f).
    { rewrite Nat2N.inj_succ, N.pow_succ_r' in Hn. now apply div10_bound. }
    set (q := n / 10) in *; set (m := n mod 10) in *; clearbody q m.
    destruct (N.ltb_spec n 10) as [L|L].
    + exists (48 + m), []; cbn [app].
      unfold digit, digits_value; cbn [fold_left].
      repeat split; auto; lia.
    + destruct (IH q Hq) as (d & rest & E & Dd & Dr & V & Z).
      exists d, (rest ++ [48 + m]); rewrite E.
      split; [reflexivity|]. split; [exact Dd|]. split.
      { apply Forall_app; split; [exact Dr|].
        constructor; [unfold digit; lia|constructor]. }
      split.
      { change (d :: rest ++ [48 + m]) with ((d :: rest) ++ [48 + m]).
        rewrite digits_value_snoc, V. lia. }
      intros ->. specialize (Z eq_refl); subst rest.
      unfold digits_value in V; cbn [fold_left] in V. lia.
Qed.

Lemma digits_of_spec (n : N) :
  exists d rest,
    digits_of n = d :: rest
    /\ digit d /\ Forall digit rest
    /\ digits_value (d :: rest) = n
    /\ (d = 48 -> rest = []).
Proof.
  apply digits_fuel_spec. rewrite N2Nat.id. apply N.size_gt.
Qed.

Lemma span_digits_app (ds tl : jsstring) (t : code_unit) :
  Forall digit ds -> delimiter t ->
  span_digits (ds ++ t :: tl) = (ds, t :: tl).
Proof.
  intros H D; induction H as [|d ds Hd _ IH]; cbn [app span_digits].
  - now destruct D as [->|[->| ->]].
  - now rewrite (is_digit_true d Hd), IH.
Qed.

Lemma unsigned_integer (neg : bool) (n : N) (t : code_unit)
    (tl : jsstring) :
  delimiter t ->
  unsigned_number neg (digits_of n ++ t :: tl)
  = Some (mk_number neg (digits_of n) 0, t :: tl).
Proof.
  intros D.
  destruct (digits_of_spec n) as (d & rest & E & Dd & Dr & V & Z).
  rewrite E. cbn [app unsigned_number].
  rewrite (is_digit_true d Dd).
  assert (I : (if d =? 48 then ([d], rest ++ t :: tl)
               else span_digits (d :: rest ++ t :: tl))
              = (d :: rest, t :: tl)).
  { destruct (N.eqb_spec d 48) as [->|Ne].
    - now rewrite (Z eq_refl).
    - apply (span_digits_app (d :: rest) tl t); [now constructor|exact D]. }
  rewrite I.
  assert (F : parse_frac (t :: tl) = Some ([], t :: tl))
    by now destruct D as [->|[->| ->]].
  assert (X : parse_exp (t :: tl) = Some (0%Z, t :: tl))
    by now destruct D as [->|[->| ->]].
  rewrite F, X, app_nil_r. reflexivity.
Qed.

Lemma mk_number_integer (z : Z) :
  mk_number (z <? 0)%Z (digits_of (Z.abs_N z)) 0 = JNumber z 0.
Proof.
  destruct (digits_of_spec (Z.abs_N z)) as (d & rest & E & _ & _ & V & _).
  unfold mk_number; rewrite E, V.
  destruct (Z.eqb_spec (Z.of_N (Z.abs_N z)) 0) as [H0|H0].
  - f_equal; lia.
  - cbn [Z.leb Z.compare]. f_equal.
    destruct (Z.ltb_spec z 0); lia.
Qed.

(** An integer followed by a delimiter reads back as itself. *)
Lemma parse_number_integer (z : Z) (t : code_unit) (tl : jsstring) :
  delimiter t ->
  parse_number (integer z ++ t :: tl) = Some (JNumber z 0, t :: tl).
Proof.
  intros D; unfold integer.
  destruct (Z.ltb_spec z 0) as [L|L].
  - cbn [app parse_number N.eqb Pos.eqb].
    rewrite unsigned_integer by exact D.
    rewrite <- (mk_number_integer z).
    now replace (z <? 0)%Z with true by (symmetry; apply Z.ltb_lt; exact L).
  - cbn [app].
    destruct (digits_of_spec (Z.abs_N z)) as (d & rest & E & Dd & _).
    pose proof (unsigned_integer false (Z.abs_N z) t tl D) as U.
    rewrite E in U |- *. cbn [app parse_number] in U |- *.
    replace (d =? 45) with false
      by (symmetry; apply N.eqb_neq; unfold digit in Dd; lia).
    rewrite U, <- E, <- (mk_number_integer z).
    now replace (z <? 0)%Z with false by (symmetry; apply Z.ltb_ge; exact L).
Qed.

(** *** Values, arrays and objects *)

Lemma reads_weaken (f0 f1 : nat) (txt : jsstring) (v : json) :
  (f0 <= f1)%nat -> reads f0 txt v -> reads f1 txt v.
Proof. intros L H f t tl Hf D; apply H; [lia|exact D]. Qed.

Lemma reads_quote (s : jsstring) : reads 1 (quote s) (JString s).
Proof.
  intros [|f] t tl Hf D; [lia|].
  unfold quote; rewrite <- app_comm_cons, <- app_assoc.
  cbn [parse_value value_body skip_ws is_json_ws N.eqb Pos.eqb orb app].
  now rewrite parse_quote_body.
Qed.

Lemma reads_integer (z : Z) : reads 1 (integer z) (JNumber z 0).
Proof.
  intros [|f] t tl Hf D; [lia|].
  pose proof (parse_number_integer z t tl D) as P.
  cbn [parse_value]; unfold value_body.
  unfold integer in *.
  destruct (Z.ltb_spec z 0) as [L|L].
  - cbn [app] in P |- *.
    cbn [skip_ws is_json_ws N.eqb Pos.eqb orb].
    now rewrite P.
  - destruct (digits_of_spec (Z.abs_N z)) as (d & rest & E & [D1 D2] & _).
    rewrite E in P |- *. cbn [app] in P |- *.
    assert (W : is_json_ws d = false).
    { unfold is_json_ws.
      repeat (apply orb_false_iff; split); apply N.eqb_neq; lia. }
    cbn [skip_ws]; rewrite W.
    replace (d =? 123) with false by (symmetry; apply N.eqb_neq; lia).
    replace (d =? 91) with false by (symmetry; apply N.eqb_neq; lia).
    replace (d =? 34) with false by (symmetry; apply N.eqb_neq; lia).
    rewrite (is_digit_true d (conj D1 D2)), orb_true_r.
    now rewrite P.
Qed.

Lemma skip_ws_delimiter (t : code_unit) (tl : jsstring) :
  delimiter t -> skip_ws (t :: tl) = t :: tl.
Proof. now intros [->|[->| ->]]. Qed.

Lemma join_cons2 (sep x y : jsstring) (l : list jsstring) :
  join sep (x :: y :: l) = x ++ sep ++ join sep (y :: l).
Proof. reflexivity. Qed.

(** The elements of an array, each of which reads as its value. *)
Lemma parse_elements_join (f0 : nat) (items : list (jsstring * json)) :
  items <> [] ->
  Forall (fun it => reads f0 (fst it) (snd it)) items ->
  forall f tl, (f0 + length items <= f)%nat ->
    parse_elements f (join [44] (map fst items) ++ 93 :: tl)
    = POk (map snd items) tl.
Proof.
  intros Hne H; induction H as [|[txt v] items Hr Hrest IH];
    [congruence|]; clear Hne.
  intros [|f] tl Hf; [simpl in Hf; lia|].
  cbn [parse_elements]; unfold elements_body.
  cbn [fst snd] in Hr.
  destruct items as [|it items].
  - cbn [map join fst snd].
    rewrite (Hr f 93 tl) by (simpl in Hf; unfold delimiter; lia || auto).
    reflexivity.
  - cbn [map]. rewrite join_cons2. cbn [fst snd].
    rewrite <- !app_assoc. cbn [app].
    rewrite (Hr f 44) by (simpl in Hf; unfold delimiter; lia || auto).
    cbn [skip_ws is_json_ws N.eqb Pos.eqb orb].
    change (join [44] (fst it :: map fst items))
      with (join [44] (map fst (it :: items))).
    rewrite IH by (simpl in Hf |- *; lia || discriminate).
    reflexivity.
Qed.

Lemma reads_string_array (l : list jsstring) :
  reads (length l + 2) (string_array l) (strings l).
Proof.
  intros [|f] t tl Hf D; [lia|].
  unfold string_array, strings.
  rewrite <- app_comm_cons, <- app_assoc.
  cbn [parse_value]; unfold value_body.
  cbn [skip_ws is_json_ws N.eqb Pos.eqb orb app].
  destruct l as [|s l].
  - reflexivity.
  - set (items := map (fun s => (quote s, JString s)) (s :: l)).
    assert (E1 : map quote (s :: l) = map fst items)
      by (unfold items; rewrite map_map; reflexivity).
    assert (E2 : map JString (s :: l) = map snd items)
      by (unfold items; rewrite map_map; reflexivity).
    rewrite E1, E2.
    assert (P : parse_elements f (join [44] (map fst items) ++ 93 :: t :: tl)
                = POk (map snd items) (t :: tl)).
    { apply (parse_elements_join 1).
      - discriminate.
      - unfold items; apply Forall_forall; intros it Hin.
        apply in_map_iff in Hin as (x & <- & _). apply reads_quote.
      - unfold items; rewrite length_map; simpl in Hf |- *; lia. }
    destruct (join [44] (map fst items) ++ 93 :: t :: tl) as [|c r] eqn:J.
    + unfold items in J; cbn [map fst join] in J.
      destruct l; discriminate.
    + assert (C : c = 34).
      { unfold items in J; cbn [map fst join] in J.
        destruct l; cbn in J; now injection J as <- _. }
      subst c. cbn [skip_ws is_json_ws N.eqb Pos.eqb orb].
      now rewrite P.
Qed.

Lemma parse_members_join (f0 : nat)
    (items : list (jsstring * jsstring * json)) :
  items <> [] ->
  Forall (fun it => reads f0 (snd (fst it)) (snd it)) items ->
  forall f tl, (f0 + length items <= f)%nat ->
    parse_members f (join [44] (map member_text items) ++ 125 :: tl)
    = POk (map member_value items) tl.
Proof.
  intros Hne H; induction H as [|[[k txt] v] items Hr Hrest IH];
    [congruence|]; clear Hne.
  intros [|f] tl Hf; [simpl in Hf; lia|].
  cbn [parse_members]; unfold members_body.
  cbn [fst snd] in Hr.
  assert (K : forall rest,
    skip_ws (member_text (k, txt, v) ++ rest) = 34 :: quote_body k ++ 34 :: 58 :: txt ++ rest).
  { intros rest; unfold member_text, quote; cbn [fst snd].
    rewrite <- !app_assoc. cbn [app skip_ws is_json_ws N.eqb Pos.eqb orb].
    rewrite <- !app_assoc. reflexivity. }
  destruct items as [|it items].
  - cbn [map join]. rewrite K.
    cbn [N.eqb Pos.eqb]. rewrite parse_quote_body.
    cbn [skip_ws is_json_ws N.eqb Pos.eqb orb].
    rewrite (Hr f 125 tl) by (simpl in Hf; unfold delimiter; lia || auto).
    reflexivity.
  - cbn [map]. rewrite join_cons2. rewrite <- !app_assoc. rewrite K.
    cbn [N.eqb Pos.eqb]. rewrite parse_quote_body.
    cbn [skip_ws is_json_ws N.eqb Pos.eqb orb app].
    rewrite (Hr f 44) by (simpl in Hf; unfold delimiter; lia || auto).
    cbn [skip_ws is_json_ws N.eqb Pos.eqb orb].
    change (join [44] (member_text it :: map member_text items))
      with (join [44] (map member_text (it :: items))).
    rewrite IH by (simpl in Hf |- *; lia || discriminate).
    reflexivity.
Qed.

(** *** The record *)

Lemma record_items_read (r : AnalysisData) :
  Forall (fun it => reads (record_fuel r) (snd (fst it)) (snd it))
         (record_items r).
Proof.
  unfold record_items, record_fuel.
  repeat constructor; cbn [fst snd];
    try (apply (reads_weaken 1); [lia|apply reads_quote]);
    try (apply (reads_weaken 1); [lia|apply reads_integer]);
    (eapply reads_weaken; [|apply reads_string_array]; lia).
Qed.

(** The serialisation of a record parses, with some fuel, to the
    record. *)
Lemma parse_value_serialize (r : AnalysisData) (tl : jsstring) :
  parse_value (S (record_fuel r + 11)) (serialize r ++ tl)
  = POk (to_json r) tl.
Proof.
  pose proof (parse_members_join (record_fuel r) (record_items r)
                ltac:(discriminate) (record_items_read r)
                (record_fuel r + 11)%nat tl ltac:(simpl; lia)) as P.
  unfold serialize, object.
  change [member "diseaseName" (quote (diseaseName r));
          member "scientificName" (quote (scientificName r));
          member "confidence" (integer (confidence r));
          member "severity" (quote (js (severity_name (severity r))));
          member "description" (quote (description r));
          member "symptoms" (string_array (symptoms r));
          member "causes" (string_array (causes r));
          member "treatment" (string_array (treatment r));
          member "prevention" (string_array (prevention r));
          member "affectedParts" (string_array (affectedParts r));
          member "spreadRate" (quote (spreadRate r))]
    with (map member_text (record_items r)).
  rewrite <- app_comm_cons, <- app_assoc. cbn [app].
  cbn [parse_value]; unfold value_body.
  cbn [skip_ws is_json_ws N.eqb Pos.eqb orb].
  destruct (join [44] (map member_text (record_items r)) ++ 125 :: tl)
    as [|c rest] eqn:J; [discriminate|].
  assert (C : c = 34) by (now injection J as <- _); subst c.
  cbn [skip_ws is_json_ws N.eqb Pos.eqb orb].
  rewrite P. reflexivity.
Qed.

(** [JSON.parse(JSON.stringify(record))] is the record. *)
Lemma JSON_parse_serialize (r : AnalysisData) :
  JSON_parse (serialize r) = Some (to_json r).
Proof.
  apply (JSON_parse_intro (S (record_fuel r + 11)) _ []);
    [|reflexivity].
  rewrite <- (app_nil_r (serialize r)) at 1.
  apply parse_value_serialize.
Qed.

End RoundTrip.

(** ** The two patterns: the search and its closed form *)

Section RegexpFacts.
Local Open Scope N_scope.

Lemma firstn_consumed (p s : jsstring) :
  firstn (length (p ++ s) - length s) (p ++ s) = p.
Proof.
  rewrite length_app.
  replace (length p + length s - length s)%nat with (length p + 0)%nat
    by lia.
  rewrite firstn_app_2. cbn [firstn]. apply app_nil_r.
Qed.

Lemma space_is_no_backtick (c : code_unit) :
  is_regexp_space c = true -> (96 =? c) = false.
Proof.
  intros H; destruct (N.eqb_spec 96 c) as [<-|]; [discriminate|reflexivity].
Qed.

Lemma closes_space (c : code_unit) (l : jsstring) :
  is_regexp_space c = true -> closes (c :: l) = closes l.
Proof. intros H; unfold closes; cbn [skip_space]; now rewrite H. Qed.

(** The end of the fence pattern, white space and three backticks, takes
    all the white space. *)
Lemma run_closing (A : Type) (k : jsstring -> option jsstring -> option A)
    (l : jsstring) (g : option jsstring) :
  run A (Then (Many true is_regexp_space) (Chars fence)) l g k
  = match strip_prefix fence (skip_space l) with
    | Some l' => k l' g
    | None => None
    end.
Proof.
  cbn [run]. induction l as [|c l IH]; [reflexivity|].
  cbn [many skip_space]. destruct (is_regexp_space c) eqn:S; [|reflexivity].
  rewrite IH.
  destruct (strip_prefix fence (skip_space l)) as [l'|] eqn:E.
  - destruct (k l' g); [reflexivity|].
    unfold fence; cbn [strip_prefix].
    now rewrite (space_is_no_backtick c S).
  - unfold fence; cbn [strip_prefix].
    now rewrite (space_is_no_backtick c S).
Qed.

Lemma many_ext (A : Type) (greedy : bool) (class : code_unit -> bool)
    (k k' : jsstring -> option A) :
  (forall l, k l = k' l) ->
  forall l, many A greedy class k l = many A greedy class k' l.
Proof.
  intros E l; induction l as [|c l IH]; cbn [many]; [apply E|].
  now rewrite IH, E.
Qed.

(** The lazy group before the end of the pattern is [lazy_capture]. *)
Lemma run_group (w : jsstring -> jsstring) (p s : jsstring) :
  option_map group1
    (many _ false any
       (fun y' =>
          match strip_prefix fence (skip_space y') with
          | Some rest =>
              Some (w rest,
                    Some (firstn (length (p ++ s) - length y') (p ++ s)))
          | None => None
          end) s)
  = option_map (app p) (lazy_capture s).
Proof.
  revert p; induction s as [|c s IH]; intros p.
  - reflexivity.
  - cbn [many any lazy_capture]. unfold closes, starts_with.
    destruct (strip_prefix fence (skip_space (c :: s))) as [rest|] eqn:E.
    + cbn [option_map]. unfold group1; cbn [snd].
      now rewrite firstn_consumed, app_nil_r.
    + replace (p ++ c :: s) with ((p ++ [c]) ++ s)
        by (rewrite <- app_assoc; reflexivity).
      rewrite IH. destruct (lazy_capture s); cbn [option_map];
        [rewrite <- app_assoc|]; reflexivity.
Qed.

Lemma run_from_group (w : jsstring -> jsstring) (y : jsstring)
    (g : option jsstring) :
  option_map group1 (run _ from_group y g (fun l' g' => Some (w l', g')))
  = lazy_capture y.
Proof.
  unfold from_group.
  change (run _ (Then (Group (Many false any))
                   (Then (Many true is_regexp_space) (Chars fence))) y g
            (fun l' g' => Some (w l', g')))
    with (many _ false any
            (fun y' =>
               run _ (Then (Many true is_regexp_space) (Chars fence)) y'
                 (Some (firstn (length y - length y') y))
                 (fun l' g' => Some (w l', g'))) y).
  assert (E : forall y',
    run _ (Then (Many true is_regexp_space) (Chars fence)) y'
      (Some (firstn (length y - length y') y))
      (fun l' g' => Some (w l', g'))
    = match strip_prefix fence (skip_space y') with
      | Some rest =>
          Some (w rest, Some (firstn (length ([] ++ y) - length y') ([] ++ y)))
      | None => None
      end) by (intros y'; apply run_closing).
  rewrite (many_ext _ _ _ _ _ E).
  rewrite (run_group w [] y). now destruct (lazy_capture y).
Qed.

(** No end of the pattern from [l] on. *)
Lemma lazy_capture_None_tail (c : code_unit) (l : jsstring) :
  lazy_capture (c :: l) = None -> lazy_capture l = None.
Proof.
  cbn [lazy_capture]. destruct (closes (c :: l)); [discriminate|].
  now destruct (lazy_capture l).
Qed.

Lemma lazy_capture_None_suffix (a l : jsstring) :
  lazy_capture (a ++ l) = None -> lazy_capture l = None.
Proof.
  induction a as [|c a IH]; [trivial|].
  intros H; apply IH. exact (lazy_capture_None_tail c _ H).
Qed.

Lemma lazy_capture_None_cons (c : code_unit) (l : jsstring) :
  closes (c :: l) = false -> lazy_capture l = None ->
  lazy_capture (c :: l) = None.
Proof. intros C H; cbn [lazy_capture]; now rewrite C, H. Qed.

Lemma lazy_capture_None_closes (l : jsstring) :
  lazy_capture l = None -> closes l = false.
Proof.
  destruct l; cbn [lazy_capture]; destruct (closes _);
    trivial; discriminate.
Qed.

Lemma lazy_capture_None_skip_space (l : jsstring) :
  lazy_capture (skip_space l) = None -> lazy_capture l = None.
Proof.
  induction l as [|c l IH]; [trivial|]. cbn [skip_space].
  destruct (is_regexp_space c) eqn:S; [|trivial].
  intros H. apply lazy_capture_None_cons; [|now apply IH].
  rewrite (closes_space c l S).
  apply lazy_capture_None_closes. now apply IH.
Qed.

Lemma skip_space_suffix (l : jsstring) :
  exists a, l = a ++ skip_space l.
Proof.
  induction l as [|c l [a IH]]; [exists []; reflexivity|].
  cbn [skip_space]. destruct (is_regexp_space c).
  - exists (c :: a). cbn [app]. now rewrite <- IH.
  - exists []. reflexivity.
Qed.

(** Greedy white space before a continuation that gains nothing from a
    leading space: all of it is taken. *)
Lemma many_spaces (A : Type) (k : jsstring -> option A) :
  (forall c l, is_regexp_space c = true -> k l = None -> k (c :: l) = None) ->
  forall l, many A true is_regexp_space k l = k (skip_space l).
Proof.
  intros H.
  assert (B : forall l, k (skip_space l) = None -> k l = None).
  { induction l as [|c l IH]; [trivial|]. cbn [skip_space].
    destruct (is_regexp_space c) eqn:S; [|trivial].
    intros E; apply H; [exact S|now apply IH]. }
  induction l as [|c l IH]; [reflexivity|].
  cbn [many skip_space]. destruct (is_regexp_space c) eqn:S; [|reflexivity].
  rewrite IH. destruct (k (skip_space l)) eqn:E; [reflexivity|].
  apply H; [exact S|now apply B].
Qed.

Lemma run_after_tag (w : jsstring -> jsstring) (x : jsstring)
    (g : option jsstring) :
  option_map group1 (run _ after_tag x g (fun l' g' => Some (w l', g')))
  = lazy_capture (skip_space x).
Proof.
  unfold after_tag.
  change (run _ (Then (Many true is_regexp_space) from_group) x g
            (fun l' g' => Some (w l', g')))
    with (many _ true is_regexp_space
            (fun x' => run _ from_group x' g
                         (fun l' g' => Some (w l', g'))) x).
  rewrite many_spaces; [apply run_from_group|].
  intros c l S E.
  pose proof (run_from_group w l g) as P1.
  pose proof (run_from_group w (c :: l) g) as P2.
  rewrite E in P1; cbn [option_map] in P1.
  assert (N : lazy_capture (c :: l) = None).
  { apply lazy_capture_None_cons; [|now symmetry].
    rewrite (closes_space c l S).
    apply lazy_capture_None_closes; now symmetry. }
  rewrite N in P2.
  destruct (run _ from_group (c :: l) g _); [discriminate|reflexivity].
Qed.

(** A match of the fence pattern at the head of a text. *)
Lemma match_at_fence (l : jsstring) :
  option_map group1 (match_at fence_pattern l)
  = match strip_prefix fence l with
    | Some r => lazy_capture (skip_space (skip_tag r))
    | None => None
    end.
Proof.
  set (w := fun l' : jsstring => firstn (length l - length l') l).
  assert (U : match_at fence_pattern l
              = match strip_prefix fence l with
                | Some r =>
                    match
                      match strip_prefix (js "json") r with
                      | Some r' =>
                          run _ after_tag r' None
                            (fun l'' g'' => Some (w l'', g''))
                      | None => None
                      end
                    with
                    | Some a => Some a
                    | None =>
                        run _ after_tag r None
                          (fun l'' g'' => Some (w l'', g''))
                    end
                | None => None
                end) by reflexivity.
  rewrite U; clear U.
  destruct (strip_prefix fence l) as [r|]; [|reflexivity].
  pose proof (run_after_tag w r None) as P0.
  unfold skip_tag.
  destruct (strip_prefix (js "json") r) as [r'|] eqn:T.
  - pose proof (run_after_tag w r' None) as P1.
    destruct (run _ after_tag r' None _) as [m|] eqn:E; [exact P1|].
    rewrite P0. cbn [option_map] in P1.
    apply strip_prefix_Some in T; subst r.
    change (js "json" ++ r') with (106 :: 115 :: 111 :: 110 :: r').
    change (skip_space (106 :: 115 :: 111 :: 110 :: r'))
      with (106 :: 115 :: 111 :: 110 :: r').
    symmetry in P1. rewrite P1.
    apply lazy_capture_None_skip_space in P1.
    repeat (apply lazy_capture_None_cons; [reflexivity|]). exact P1.
  - exact P0.
Qed.

Lemma group1_None (o : option (jsstring * option jsstring)) :
  option_map group1 o = None -> o = None.
Proof. now destruct o. Qed.

(** After a text in which the pattern cannot end, no match starts. *)
Lemma regexp_match_fence_dead (l : jsstring) :
  (forall a s, l = a ++ fence ++ s -> lazy_capture s = None) ->
  regexp_match fence_pattern l = None.
Proof.
  induction l as [|c l IH]; intros D.
  - reflexivity.
  - cbn [regexp_match].
    assert (M : match_at fence_pattern (c :: l) = None).
    { apply group1_None. rewrite match_at_fence.
      destruct (strip_prefix fence (c :: l)) as [r|] eqn:E; [|reflexivity].
      apply strip_prefix_Some in E.
      assert (Dr : lazy_capture r = None) by (apply (D []); exact E).
      destruct (skip_space_suffix (skip_tag r)) as [a Ha].
      assert (Ht : exists b, r = b ++ skip_tag r).
      { unfold skip_tag.
        destruct (strip_prefix (js "json") r) as [r'|] eqn:T.
        - apply strip_prefix_Some in T. now exists (js "json").
        - now exists []. }
      destruct Ht as [b Hb].
      rewrite Hb, Ha, app_assoc in Dr.
      exact (lazy_capture_None_suffix _ _ Dr). }
    rewrite M. apply IH.
    intros a s E. apply (D (c :: a)). now rewrite E.
Qed.

(** The pattern of line 114 under the backtracking semantics of regular
    expressions selects, for every text, what [match_fence] computes
    directly: the text between the first three backticks (after an
    optional [json] and white space) and the next three backticks,
    without the white space before them. *)
Lemma fenced_block_closed_form (text : jsstring) :
  fenced_block text = match_fence text.
Proof.
  assert (G : fenced_block text
              = option_map group1 (regexp_match fence_pattern text)).
  { unfold fenced_block.
    now destruct (regexp_match fence_pattern text) as [[w [g|]]|]. }
  rewrite G; clear G.
  change (match_fence text)
    with (match after_first fence text with
          | None => None
          | Some r => lazy_capture (skip_space (skip_tag r))
          end).
  induction text as [|c text IH].
  - reflexivity.
  - cbn [regexp_match after_first].
    pose proof (match_at_fence (c :: text)) as M.
    destruct (strip_prefix fence (c :: text)) as [r|] eqn:E.
    + destruct (match_at fence_pattern (c :: text)) as [m|]; [exact M|].
      cbn [option_map] in M. rewrite <- M.
      apply strip_prefix_Some in E.
      assert (Dr : lazy_capture r = None).
      { symmetry in M. apply lazy_capture_None_skip_space in M.
        unfold skip_tag in M.
        destruct (strip_prefix (js "json") r) as [r'|] eqn:T; [|exact M].
        apply strip_prefix_Some in T; subst r.
        change (js "json" ++ r') with (106 :: 115 :: 111 :: 110 :: r').
        repeat (apply lazy_capture_None_cons; [reflexivity|]). exact M. }
      rewrite regexp_match_fence_dead; [reflexivity|].
      intros a s Es. unfold fence in E, Es; cbn [app] in E.
      assert (Et : text = 96 :: 96 :: r) by congruence.
      rewrite Et in Es.
      destruct a as [|x [|y a]]; cbn [app] in Es.
      * assert (Hr : r = 96 :: s) by congruence. rewrite Hr in Dr.
        exact (lazy_capture_None_tail _ _ Dr).
      * assert (Hr : r = 96 :: 96 :: s) by congruence. rewrite Hr in Dr.
        exact (lazy_capture_None_tail _ _ (lazy_capture_None_tail _ _ Dr)).
      * assert (Hr : r = a ++ 96 :: 96 :: 96 :: s) by congruence.
        rewrite Hr in Dr.
        apply lazy_capture_None_suffix in Dr.
        exact (lazy_capture_None_tail _ _
                 (lazy_capture_None_tail _ _
                    (lazy_capture_None_tail _ _ Dr))).
    + destruct (match_at fence_pattern (c :: text)); [discriminate|].
      exact IH.
Qed.

(** The greedy star of the brace pattern before its closing brace. *)
Lemma run_brace (p r : jsstring) :
  option_map fst
    (many _ true any
       (fun r' =>
          match strip_prefix [125] r' with
          | Some rest =>
              Some (firstn (length (p ++ r) - length rest) (p ++ r),
                    @None jsstring)
          | None => None
          end) r)
  = option_map (app p) (through_last_brace r).
Proof.
  revert p; induction r as [|c r IH]; intros p; [reflexivity|].
  cbn [many any through_last_brace].
  replace (p ++ c :: r) with ((p ++ [c]) ++ r)
    by (rewrite <- app_assoc; reflexivity).
  specialize (IH (p ++ [c])).
  destruct (many _ true any _ r) as [m|] eqn:E.
  - destruct (through_last_brace r) as [q|]; [|discriminate].
    cbn [option_map] in IH |- *. rewrite IH, <- app_assoc. reflexivity.
  - destruct (through_last_brace r) as [q|]; [discriminate|].
    cbn [strip_prefix].
    destruct (N.eqb_spec 125 c) as [<-|Ne].
    + replace (N.eqb 125 125) with true by reflexivity.
      cbn [option_map fst]. now rewrite firstn_consumed.
    + replace (c =? 125) with false
        by (symmetry; apply N.eqb_neq; congruence).
      reflexivity.
Qed.

(** A match of the brace pattern at the head of a text. *)
Lemma match_at_brace (l : jsstring) :
  option_map fst (match_at brace_pattern l)
  = match l with
    | c :: r =>
        if c =? 123 then option_map (cons 123) (through_last_brace r)
        else None
    | [] => None
    end.
Proof.
  destruct l as [|c r]; [reflexivity|].
  unfold match_at, brace_pattern. cbn [run strip_prefix].
  rewrite (N.eqb_sym 123 c).
  destruct (N.eqb_spec c 123) as [->|Ne]; [|reflexivity].
  exact (run_brace [123] r).
Qed.

Lemma through_last_brace_None_tail (c : code_unit) (l : jsstring) :
  through_last_brace (c :: l) = None -> through_last_brace l = None.
Proof.
  cbn [through_last_brace]. now destruct (through_last_brace l).
Qed.

Lemma regexp_match_brace_dead (l : jsstring) :
  through_last_brace l = None -> regexp_match brace_pattern l = None.
Proof.
  induction l as [|c l IH]; intros D; [reflexivity|].
  cbn [regexp_match].
  pose proof (match_at_brace (c :: l)) as M. cbn beta iota in M.
  pose proof (through_last_brace_None_tail c l D) as Dl.
  rewrite Dl in M.
  destruct (match_at brace_pattern (c :: l)) as [m|].
  - destruct (c =? 123); discriminate.
  - exact (IH Dl).
Qed.

(** The pattern of line 119 under the backtracking semantics selects, for
    every text, what [match_object] computes directly: the span from the
    first opening brace that has a closing brace after it through the
    last closing brace. *)
Lemma brace_span_closed_form (text : jsstring) :
  brace_span text = match_object text.
Proof.
  assert (G : brace_span text
              = option_map fst (regexp_match brace_pattern text)).
  { unfold brace_span.
    now destruct (regexp_match brace_pattern text) as [[w g]|]. }
  rewrite G; clear G. unfold match_object.
  induction text as [|c text IH]; [reflexivity|].
  cbn [regexp_match from_first_brace].
  pose proof (match_at_brace (c :: text)) as M. cbn beta iota in M.
  destruct (N.eqb_spec c 123) as [->|Ne].
  - destruct (match_at brace_pattern (123 :: text)) as [m|].
    + cbn [option_map] in M |- *. rewrite M.
      now destruct (through_last_brace text).
    + destruct (through_last_brace text) as [q|] eqn:T; [discriminate|].
      now rewrite (regexp_match_brace_dead text T).
  - destruct (match_at brace_pattern (c :: text)); [discriminate|].
    exact IH.
Qed.

End RegexpFacts.

(** ** The fenced block *)

Section Fence.
Local Open Scope N_scope.

Lemma occurs_tail (p : jsstring) (c : code_unit) (l : jsstring) :
  occurs p (c :: l) = false -> occurs p l = false.
Proof.
  unfold occurs; cbn [after_first].
  destruct (strip_prefix p (c :: l)); [discriminate|trivial].
Qed.

Lemma occurs_head (p : jsstring) (l : jsstring) :
  occurs p l = false -> strip_prefix p l = None.
Proof.
  unfold occurs; destruct l; cbn [after_first];
    destruct (strip_prefix p _); trivial; discriminate.
Qed.

(** A text that ends in a closing brace and holds no fence cannot be
    followed, at any point inside it, by the end of the pattern. *)
Lemma not_closes_inside (u rest : jsstring) :
  occurs fence (u ++ [125]) = false ->
  closes ((u ++ [125]) ++ rest) = false.
Proof.
  induction u as [|c u IH]; intros H; [reflexivity|].
  unfold closes. cbn [app skip_space].
  destruct (is_regexp_space c) eqn:S.
  - apply IH. exact (occurs_tail _ _ _ H).
  - apply occurs_head in H. cbn [app] in H.
    unfold starts_with, fence in *. cbn [strip_prefix] in H |- *.
    destruct (96 =? c); [|reflexivity].
    destruct u as [|c1 u]; cbn [app] in H |- *.
    { reflexivity. }
    destruct (96 =? c1); [|reflexivity].
    destruct u as [|c2 u]; cbn [app] in H |- *.
    { reflexivity. }
    destruct (96 =? c2); [discriminate|reflexivity].
Qed.

(** The lazy group stops exactly at the end of such a text. *)
Lemma lazy_capture_exact (u rest : jsstring) :
  occurs fence (u ++ [125]) = false -> closes rest = true ->
  lazy_capture ((u ++ [125]) ++ rest) = Some (u ++ [125]).
Proof.
  intros H C; induction u as [|c u IH].
  - cbn [app lazy_capture].
    change (closes (125 :: rest)) with false. cbn iota.
    destruct rest; cbn [lazy_capture]; now rewrite C.
  - pose proof (not_closes_inside (c :: u) rest H) as N.
    cbn [app] in N |- *. cbn [lazy_capture]. rewrite N.
    cbn [app] in IH. rewrite IH; [reflexivity|].
    exact (occurs_tail _ _ _ H).
Qed.

Lemma skip_space_app (ws l : jsstring) :
  spaces ws -> skip_space (ws ++ l) = skip_space l.
Proof.
  induction 1 as [|c ws Hc _ IH]; [reflexivity|].
  cbn [app skip_space]. now rewrite Hc.
Qed.

Lemma closes_after_spaces (ws post : jsstring) :
  spaces ws -> closes (ws ++ fence ++ post) = true.
Proof.
  intros H; unfold closes. rewrite skip_space_app by exact H. reflexivity.
Qed.

Lemma strip_prefix_longer (p a b : jsstring) :
  (length p <= length a)%nat ->
  strip_prefix p a = None -> strip_prefix p (a ++ b) = None.
Proof.
  revert a; induction p as [|x p IH]; intros a L; [discriminate|].
  destruct a as [|y a]; [simpl in L; lia|].
  cbn [app strip_prefix]. destruct (x =? y); [|trivial].
  apply IH. simpl in L; lia.
Qed.

(** When no fence starts before the opening one, the first occurrence
    of a fence is the opening one. *)
Lemma after_first_opening (pre l : jsstring) :
  occurs fence (pre ++ [96; 96]) = false ->
  after_first fence (pre ++ fence ++ l) = Some l.
Proof.
  induction pre as [|c pre IH]; intros H.
  - reflexivity.
  - pose proof (occurs_head _ _ H) as N.
    cbn [app after_first].
    replace (c :: pre ++ fence ++ l)
      with ((c :: pre ++ [96; 96]) ++ 96 :: l)
      by (cbn [app]; rewrite <- app_assoc; reflexivity).
    rewrite strip_prefix_longer;
      [|cbn [length fence]; rewrite length_app; simpl; lia|exact N].
    replace ((c :: pre ++ [96; 96]) ++ 96 :: l)
      with (c :: pre ++ fence ++ l)
      by (cbn [app]; rewrite <- app_assoc; reflexivity).
    cbn [after_first].
    apply IH. exact (occurs_tail _ _ _ H).
Qed.

(** Group 1 of the fence pattern on a fenced text that ends in a brace. *)
Lemma match_fence_fenced (pre t ws1 u ws2 post : jsstring) :
  occurs fence (pre ++ [96; 96]) = false ->
  tag t -> spaces ws1 -> spaces ws2 ->
  occurs fence (123 :: u ++ [125]) = false ->
  match_fence (pre ++ fence ++ t ++ ws1 ++ (123 :: u ++ [125])
                   ++ ws2 ++ fence ++ post)
  = Some (123 :: u ++ [125]).
Proof.
  intros Hpre Ht H1 H2 Hu. unfold match_fence.
  rewrite after_first_opening by exact Hpre.
  assert (E : match strip_prefix (js "json")
                      (t ++ ws1 ++ (123 :: u ++ [125]) ++ ws2 ++ fence ++ post)
              with Some r' => r'
              | None => t ++ ws1 ++ (123 :: u ++ [125]) ++ ws2 ++ fence ++ post
              end = ws1 ++ (123 :: u ++ [125]) ++ ws2 ++ fence ++ post).
  { destruct Ht as [-> | ->].
    - cbn [app]. destruct H1 as [|c ws1 Hc _].
      + reflexivity.
      + cbn [app]. change (js "json") with [106; 115; 111; 110].
        cbn [strip_prefix].
        destruct (N.eqb_spec 106 c) as [<-|_]; [discriminate|reflexivity].
    - now rewrite strip_prefix_app. }
  rewrite E, skip_space_app by exact H1.
  change (skip_space ((123 :: u ++ [125]) ++ ws2 ++ fence ++ post))
    with ((123 :: u ++ [125]) ++ ws2 ++ fence ++ post).
  apply (lazy_capture_exact (123 :: u)); [exact Hu|].
  apply closes_after_spaces; exact H2.
Qed.

End Fence.

(** ** The schema on records *)

Section SchemaFacts.

Lemma spec_is_strings_strings (l : list jsstring) :
  spec_is_strings (Some (strings l)) = true.
Proof.
  unfold spec_is_strings, strings; induction l as [|x l IH];
    [reflexivity|exact IH].
Qed.

(** A valid record satisfies the schema of the specification. *)
Lemma spec_schema_ok_valid (r : AnalysisData) :
  spec_valid r -> spec_schema_ok (to_json r) = true.
Proof.
  intros [[C1 C2] S]. unfold spec_schema_ok, to_json.
  cbn -[spec_is_strings strings spec_is_enum Z.leb].
  rewrite !spec_is_strings_strings.
  cbn [spec_is_enum]; rewrite S.
  replace (0 <=? confidence r)%Z with true
    by (symmetry; apply Z.leb_le; exact C1).
  replace (confidence r <=? 100)%Z with true
    by (symmetry; apply Z.leb_le; exact C2).
  now destruct (severity r).
Qed.

End SchemaFacts.

(** ** The claims about the extraction of the reply *)

Section ExtractionClaims.
Local Open Scope N_scope.

(** C8.  For every valid record, the reply that is its JSON
    serialisation is parsed by the first strategy alone, and the value
    returned is the record (which satisfies the schema). *)
Theorem C8_serialized_record_round_trips (r : AnalysisData) :
  spec_valid r ->
  parse_reply (serialize r) = (Ok (to_json r), [WholeText])
  /\ spec_schema_ok (to_json r) = true.
Proof.
  intros V; split.
  - unfold parse_reply. now rewrite JSON_parse_serialize.
  - exact (spec_schema_ok_valid r V).
Qed.

Lemma C8_witness :
  spec_valid leaf_blight
  /\ parse_reply (serialize leaf_blight)
     = (Ok (to_json leaf_blight), [WholeText])
  /\ spec_schema_ok (to_json leaf_blight) = true.
Proof.
  assert (V : spec_valid leaf_blight).
  { split; [simpl; lia|reflexivity]. }
  split; [exact V|].
  exact (C8_serialized_record_round_trips leaf_blight V).
Defined.

(** The serialisation of a record is a brace, a text, a brace. *)
Lemma serialize_braces (r : AnalysisData) :
  exists u, serialize r = 123 :: u ++ [125].
Proof. unfold serialize, object; eexists; reflexivity. Qed.

(** C9 as stated fails: a valid record whose description contains three
    backticks, fenced after a sentence.  The lazy group ends at the
    backticks inside the description, the truncated text is not JSON, and
    the reply is rejected. *)
Lemma C9_counterexample :
  spec_valid fence_in_text
  /\ JSON_parse (fenced (serialize fence_in_text)) = None
  /\ parse_reply (fenced (serialize fence_in_text))
     = (Throw SyntaxError, [WholeText; FencedBlock]).
Proof.
  split; [split; [simpl; lia|reflexivity]|].
  split; vm_compute; reflexivity.
Qed.

(** C9, amended.  Take a valid record whose serialisation [t] contains no
    three backticks, in a fence that is the first three backticks of the
    text, optionally tagged [json], with white space around [t], and let
    the whole text not be JSON.  Then the reply is parsed by the second
    strategy and the value returned is the record. *)
Theorem C9_fenced_record_is_extracted
    (r : AnalysisData) (pre t ws1 ws2 post : jsstring) :
  spec_valid r ->
  occurs fence (pre ++ [96; 96]) = false ->
  tag t -> spaces ws1 -> spaces ws2 ->
  occurs fence (serialize r) = false ->
  JSON_parse (pre ++ fence ++ t ++ ws1 ++ serialize r
                  ++ ws2 ++ fence ++ post) = None ->
  parse_reply (pre ++ fence ++ t ++ ws1 ++ serialize r
                   ++ ws2 ++ fence ++ post)
  = (Ok (to_json r), [WholeText; FencedBlock]).
Proof.
  intros _ Hpre Ht H1 H2 Hr Hwhole.
  unfold parse_reply; rewrite Hwhole.
  destruct (serialize_braces r) as [u E].
  rewrite E in Hr |- *.
  rewrite (match_fence_fenced pre t ws1 u ws2 post Hpre Ht H1 H2 Hr).
  rewrite <- E. unfold parse_or_throw.
  now rewrite JSON_parse_serialize.
Qed.

Lemma C9_witness :
  parse_reply (fenced (serialize leaf_blight))
  = (Ok (to_json leaf_blight), [WholeText; FencedBlock]).
Proof.
  assert (E : fenced (serialize leaf_blight)
              = (js "Here you go:" ++ [10]) ++ fence ++ js "json" ++ [10]
                ++ serialize leaf_blight ++ [10] ++ fence
                ++ js " Hope this helps.")
    by (unfold fenced; rewrite <- !app_assoc; reflexivity).
  rewrite E.
  apply (C9_fenced_record_is_extracted leaf_blight
           (js "Here you go:" ++ [10]) (js "json") [10] [10]
           (js " Hope this helps.")).
  - split; [simpl; lia|reflexivity].
  - vm_compute; reflexivity.
  - right; reflexivity.
  - repeat constructor.
  - repeat constructor.
  - vm_compute; reflexivity.
  - vm_compute; reflexivity.
Defined.

(** C1 as stated fails: a reply that is JSON for a record with
    [confidence: 150] is returned as success, by [parse_reply] and by the
    handler (status 200), although the value violates the schema. *)
Lemma C1_counterexample :
  fst (parse_reply (serialize overconfident)) = Ok (to_json overconfident)
  /\ spec_schema_ok (to_json overconfident) = false
  /\ fst (serve analyze_request api_key
            (gateway 200 (completion (serialize overconfident))))
     = {| status := 200; body := JsonBody (to_json overconfident) |}.
Proof. repeat split; vm_compute; reflexivity. Qed.

(** C1, amended.  No schema is checked: whatever value [JSON.parse] gives
    for the text a strategy selects is returned as success.  For every
    reply and every value [v], valid or not: if the whole text parses to
    [v], or it does not parse and the interior of its first fenced block
    parses to [v], or it does not parse, has no fenced block, and its
    brace span parses to [v], then [v] is returned. *)
Theorem C1_parsed_value_is_returned_unchecked (content : jsstring)
    (v : json) :
  (JSON_parse content = Some v -> fst (parse_reply content) = Ok v)
  /\ (forall inner,
        JSON_parse content = None -> match_fence content = Some inner ->
        JSON_parse inner = Some v -> fst (parse_reply content) = Ok v)
  /\ (forall span,
        JSON_parse content = None -> match_fence content = None ->
        match_object content = Some span ->
        JSON_parse span = Some v -> fst (parse_reply content) = Ok v).
Proof.
  unfold parse_reply, parse_or_throw; repeat split.
  - now intros ->.
  - now intros inner -> -> ->.
  - now intros span -> -> -> ->.
Qed.

Lemma C1_witness :
  JSON_parse (serialize overconfident) = Some (to_json overconfident)
  /\ spec_schema_ok (to_json overconfident) = false
  /\ fst (parse_reply (serialize overconfident))
     = Ok (to_json overconfident).
Proof.
  assert (P : JSON_parse (serialize overconfident)
              = Some (to_json overconfident)) by (vm_compute; reflexivity).
  split; [exact P|]. split; [vm_compute; reflexivity|].
  exact (proj1 (C1_parsed_value_is_returned_unchecked
                  (serialize overconfident) (to_json overconfident)) P).
Defined.

(** C2 as stated fails: the whole text is not JSON, the interior of the
    fenced block is not JSON either, and the handler stops there with the
    [SyntaxError]; the third strategy is not tried, although the brace
    span of the text is a JSON object. *)
Lemma C2_counterexample :
  parse_reply broken_fence = (Throw SyntaxError, [WholeText; FencedBlock])
  /\ match_fence broken_fence = Some (js "oops")
  /\ match_object broken_fence = Some small_object
  /\ JSON_parse small_object = Some (JObject [(js "a", JNumber 1 0)]).
Proof. repeat split; vm_compute; reflexivity. Qed.

(** C2, amended.  When the whole text is not JSON, that failure is
    absorbed and the second strategy is tried.  The third strategy is
    tried exactly when the text holds no fenced block.  When it holds
    one, the outcome of parsing its interior is final, a failure
    included.  Only a text that is not JSON and has neither a fenced block
    nor a brace span gives the error [Could not extract JSON from
    response]. *)
Theorem C2_fallback_order (content : jsstring) :
  (In FencedBlock (snd (parse_reply content))
     <-> JSON_parse content = None)
  /\ (In BraceSpan (snd (parse_reply content))
        <-> JSON_parse content = None /\ match_fence content = None)
  /\ (forall inner,
        JSON_parse content = None -> match_fence content = Some inner ->
        fst (parse_reply content) = parse_or_throw inner)
  /\ (forall span,
        JSON_parse content = None -> match_fence content = None ->
        match_object content = Some span ->
        fst (parse_reply content) = parse_or_throw span)
  /\ (fst (parse_reply content)
        = Throw (Error (js "Could not extract JSON from response"))
      <-> JSON_parse content = None /\ match_fence content = None
          /\ match_object content = None).
Proof.
  unfold parse_reply, parse_or_throw.
  destruct (JSON_parse content) as [v|] eqn:P;
    [|destruct (match_fence content) as [inner|] eqn:F;
      [|destruct (match_object content) as [span|] eqn:O]];
    cbn [fst snd In]; repeat split; intros;
    repeat match goal with
           | H : _ \/ _ |- _ => destruct H
           | H : _ /\ _ |- _ => destruct H
           | H : False |- _ => destruct H
           | H : Some _ = Some _ |- _ => injection H as <-
           | H : match JSON_parse ?x with _ => _ end = _ |- _ =>
               destruct (JSON_parse x)
           end;
    try discriminate; try reflexivity; auto.
Qed.

Lemma C2_witness :
  JSON_parse broken_fence = None
  /\ match_fence broken_fence = Some (js "oops")
  /\ fst (parse_reply broken_fence) = parse_or_throw (js "oops").
Proof.
  assert (P : JSON_parse broken_fence = None) by (vm_compute; reflexivity).
  assert (F : match_fence broken_fence = Some (js "oops"))
    by (vm_compute; reflexivity).
  split; [exact P|]. split; [exact F|].
  exact (proj1 (proj2 (proj2 (C2_fallback_order broken_fence)))
           (js "oops") P F).
Defined.

End ExtractionClaims.

(** ** Reading the request and the reply *)

Section Bodies.
Local Open Scope N_scope.

Lemma join_members_head (items : list (jsstring * jsstring * json))
    (tl : jsstring) :
  items <> [] ->
  exists rest, join [44] (map member_text items) ++ tl = 34 :: rest.
Proof.
  destruct items as [|[[k txt] v] [|it items]]; [congruence| |]; intros _;
    cbn [map join]; unfold member_text, quote; cbn [fst snd app];
    eexists; reflexivity.
Qed.

(** An object whose member values read as given values. *)
Lemma parse_value_object (f0 : nat)
    (items : list (jsstring * jsstring * json)) (f : nat) (tl : jsstring) :
  items <> [] ->
  Forall (fun it => reads f0 (snd (fst it)) (snd it)) items ->
  (f0 + length items < f)%nat ->
  parse_value f (object (map member_text items) ++ tl)
  = POk (JObject (obj_of_members (map member_value items))) tl.
Proof.
  intros Hne Hr Hf. destruct f as [|f]; [lia|].
  pose proof (parse_members_join f0 items Hne Hr f tl ltac:(lia)) as P.
  unfold object. rewrite <- app_comm_cons, <- app_assoc. cbn [app].
  cbn [parse_value]; unfold value_body.
  cbn [skip_ws is_json_ws N.eqb Pos.eqb orb].
  destruct (join_members_head items (125 :: tl) Hne) as [rest J].
  rewrite J in P |- *.
  cbn [skip_ws is_json_ws N.eqb Pos.eqb orb].
  now rewrite P.
Qed.

Lemma reads_object (f0 : nat) (items : list (jsstring * jsstring * json)) :
  items <> [] ->
  Forall (fun it => reads f0 (snd (fst it)) (snd it)) items ->
  reads (S (f0 + length items)) (object (map member_text items))
        (JObject (obj_of_members (map member_value items))).
Proof.
  intros Hne Hr f t tl Hf _. apply (parse_value_object f0); [exact Hne|exact Hr|lia].
Qed.

(** An array with the one element [txt], which starts an object. *)
Lemma reads_array_of_one (f0 : nat) (txt : jsstring) (v : json) :
  reads f0 (123 :: txt) v ->
  reads (S (S f0)) (91 :: (123 :: txt) ++ [93]) (JArray [v]).
Proof.
  intros Hr [|f] t tl Hf D; [lia|].
  pose proof (parse_elements_join f0 [(123 :: txt, v)] ltac:(discriminate)
                ltac:(repeat constructor; exact Hr) f (t :: tl)
                ltac:(simpl; lia)) as P.
  cbn [map join fst snd] in P.
  rewrite <- app_comm_cons, <- app_assoc. cbn [app] in P |- *.
  cbn [parse_value]; unfold value_body.
  cbn [skip_ws is_json_ws N.eqb Pos.eqb orb].
  now rewrite P.
Qed.

(** The request body that the client posts decodes to its two
    strings. *)
Lemma JSON_parse_invoke_body (imageData language : jsstring) :
  JSON_parse (Page.invoke_body imageData language)
  = Some (JObject [(js "imageData", JString imageData);
                   (js "language", JString language)]).
Proof.
  apply (JSON_parse_intro 4 _ []); [|reflexivity].
  rewrite <- (app_nil_r (Page.invoke_body imageData language)).
  exact (parse_value_object 1
           [(js "imageData", quote imageData, JString imageData);
            (js "language", quote language, JString language)] 4 []
           ltac:(discriminate)
           ltac:(repeat constructor; apply reads_quote) ltac:(simpl; lia)).
Qed.

Lemma JSON_parse_completion (content : jsstring) :
  JSON_parse (completion content) = Some (completion_value content).
Proof.
  assert (R3 : reads 3 (object [member "content" (quote content)])
                 (JObject [(js "content", JString content)])).
  { exact (reads_object 1 [(js "content", quote content, JString content)]
             ltac:(discriminate)
             ltac:(repeat constructor; apply reads_quote)). }
  assert (R2 : reads 5 (object [member "message"
                                  (object [member "content" (quote content)])])
                 (JObject [(js "message",
                            JObject [(js "content", JString content)])])).
  { exact (reads_object 3
             [(js "message", object [member "content" (quote content)],
               JObject [(js "content", JString content)])]
             ltac:(discriminate) ltac:(repeat constructor; exact R3)). }
  assert (R1 : reads 7 (91 :: object [member "message"
                          (object [member "content" (quote content)])]
                        ++ [93])
                 (JArray [JObject [(js "message",
                            JObject [(js "content", JString content)])]])).
  { exact (reads_array_of_one 5 _ _ R2). }
  apply (JSON_parse_intro 9 _ []); [|reflexivity].
  rewrite <- (app_nil_r (completion content)).
  exact (parse_value_object 7
           [(js "choices",
             91 :: object [member "message"
                             (object [member "content" (quote content)])]
                ++ [93],
             JArray [JObject [(js "message",
                        JObject [(js "content", JString content)])]])]
           9 [] ltac:(discriminate) ltac:(repeat constructor; exact R1)
           ltac:(simpl; lia)).
Qed.

End Bodies.

(** ** The claims about the edge function *)

Section EdgeClaims.
Local Open Scope Z_scope.

Lemma recover_throw (e : exn) : failure (recover (Throw e)).
Proof. eexists; reflexivity. Qed.






(** C7.  Whenever the credential is unset or empty, whatever the request
    and the gateway: no call of [fetch] is made, and a request other than
    the preflight is answered with status 500, with the message
    [LOVABLE_API_KEY is not configured] as soon as its body is JSON and
    not [null].  And for any credential: a call of [fetch] that is made
    carries the configured credential, which is not empty. *)
Theorem C7_no_call_without_credential (req : Request)
    (key : option jsstring) (fetch : FetchRequest -> FetchOutcome) :
  (not_configured key = true ->
     snd (serve req key fetch) = []
     /\ (Str.eqb (method req) (js "OPTIONS") = false ->
         failure (fst (serve req key fetch))
         /\ forall args,
              parse_or_throw (payload req) = Ok args -> args <> JNull ->
              fst (serve req key fetch)
              = {| status := 500;
                   body := ErrorBody (Text
                     (js "LOVABLE_API_KEY is not configured")) |}))
  /\ (forall call,
        In (Fetch call) (snd (serve req key fetch)) ->
        key = Some (bearer call) /\ bearer call <> []).
Proof.
  assert (A : forall args,
            not_configured key = true ->
            analyze args key fetch
            = (Throw (Error (js "LOVABLE_API_KEY is not configured")), [])).
  { intros args N; unfold analyze; now rewrite N. }
  split.
  - intros N; unfold serve, handle.
    destruct (Str.eqb (method req) (js "OPTIONS")).
    { split; [reflexivity|discriminate]. }
    destruct (parse_or_throw (payload req)) as [args|e].
    + destruct args; rewrite ?A by exact N; cbn [fst snd];
        (split; [reflexivity|]); intros _;
        (split; [apply recover_throw|]);
        intros a [= <-] Ha; try reflexivity; congruence.
    + cbn [fst snd]. split; [reflexivity|]. intros _.
      split; [apply recover_throw|]. intros a H; discriminate.
  - intros call; unfold serve, handle.
    destruct (Str.eqb (method req) (js "OPTIONS")); [intros []|].
    destruct (parse_or_throw (payload req)) as [args|e]; [|intros []].
    assert (B : In (Fetch call) (snd (analyze args key fetch)) ->
                key = Some (bearer call) /\ bearer call <> []).
    { unfold analyze.
      destruct key as [[|c k]|]; cbn [not_configured]; try (intros []).
      destruct (ToString_opt (get args "language")); [|intros []].
      cbn [snd In credential]. intros [[= <-]|[]].
      split; [reflexivity|discriminate]. }
    destruct args; cbn [fst snd]; try exact B. intros [].
Qed.

Lemma C7_witness :
  snd (serve analyze_request None (gateway 200 (js "{}"))) = []
  /\ fst (serve analyze_request None (gateway 200 (js "{}")))
     = {| status := 500;
          body := ErrorBody (Text
            (js "LOVABLE_API_KEY is not configured")) |}.
Proof.
  destruct (proj1 (C7_no_call_without_credential analyze_request None
                     (gateway 200 (js "{}"))) eq_refl) as [E H].
  split; [exact E|].
  refine (proj2 (H eq_refl) _ _ _).
  - vm_compute; reflexivity.
  - discriminate.
Defined.

End EdgeClaims.

(** ** The claims about the report component *)

Section ReportClaims.

Variable invoke : jsstring -> jsstring -> InvokeResult.
Variable html2canvas : Surface -> option jsstring.
Variable onLanguageChange : option (jsstring -> json -> Props -> Props).

Abbreviation run :=
  (generatePDFInLanguage invoke html2canvas onLanguageChange).

Lemma export_invokes_nothing (lang : jsstring) (v : View)
    (image language : jsstring) :
  ~ In (Invoke image language) (export html2canvas lang v).
Proof.
  unfold export; destruct (html2canvas (render v)); cbn [In];
    intros H; repeat (destruct H as [H|H]; [discriminate|]); exact H.
Qed.

Lemma export_saves_what_is_rendered (lang : jsstring) (v : View)
    (d : Document) :
  In (Save d) (export html2canvas lang v) -> depicts d = render v.
Proof.
  unfold export; destruct (html2canvas (render v)); cbn [In];
    intros H; repeat (destruct H as [H|H]; try discriminate);
    try contradiction.
  now injection H as <-.
Qed.

(** C3.  For every component and requested language: when the analysis
    call for that request gives an error, the call of
    [generatePDFInLanguage] leaves the held record, the held language and
    the props as they were; if the call was made (the component is
    mounted and the language differs from the held one) the only effects
    are the two toasts around it, the second showing the error.  And in
    every run the held pair afterwards is either the old pair or, the
    analysis call having succeeded, the new record together with the new
    language. *)
Theorem C3_failed_reanalysis_keeps_session (selectedLanguage : jsstring)
    (v : View) :
  (forall m,
     invoke (imagePreview (props v)) selectedLanguage = Failure m ->
     held (after (run selectedLanguage v)) = held v
     /\ props (after (run selectedLanguage v)) = props v
     /\ (mounted v = true ->
         Str.eqb selectedLanguage (currentLanguage v) = false ->
         effects (run selectedLanguage v)
         = [Toast (Translating (language_name selectedLanguage));
            Invoke (imagePreview (props v)) selectedLanguage;
            Toast (Failed m)]))
  /\ (held (after (run selectedLanguage v)) = held v
      \/ exists translatedData,
           invoke (imagePreview (props v)) selectedLanguage
           = Data translatedData
           /\ held (after (run selectedLanguage v))
              = (translatedData, selectedLanguage)).
Proof.
  unfold run, generatePDFInLanguage.
  destruct (mounted v); cbn [negb].
  2:{ split; [intros m _; repeat split; discriminate|left; reflexivity]. }
  destruct (Str.eqb selectedLanguage (currentLanguage v)); cbn [negb].
  { split; [intros m _; repeat split; discriminate|left; reflexivity]. }
  destruct (invoke (imagePreview (props v)) selectedLanguage) as [d|m'].
  - split; [discriminate|]. right; exists d; split; reflexivity.
  - split; [|left; reflexivity].
    intros m [= <-]; repeat split.
Qed.

(** C4.  For every component: a call of [generatePDFInLanguage] with the
    held language makes no analysis call, leaves the held record, the
    held language and the props as they were, and (on a mounted
    component) uses the held record as [dataToUse]. *)
Theorem C4_same_language_makes_no_call (selectedLanguage : jsstring)
    (v : View) :
  selectedLanguage = currentLanguage v ->
  (forall image language,
     ~ In (Invoke image language) (effects (run selectedLanguage v)))
  /\ held (after (run selectedLanguage v)) = held v
  /\ props (after (run selectedLanguage v)) = props v
  /\ (mounted v = true ->
      dataToUse (run selectedLanguage v) = Some (currentData v)).
Proof.
  intros ->; unfold run, generatePDFInLanguage.
  rewrite eqb_refl; cbn [negb].
  destruct (mounted v); cbn [negb after effects dataToUse].
  - split; [|repeat split].
    intros image language; apply export_invokes_nothing.
  - split; [|repeat split; discriminate].
    intros image language [].
Qed.

End ReportClaims.

Lemma C3_witness :
  held (after (generatePDFInLanguage failing_invoke capture_works
                 (Some Index_onLanguageChange) (js "hi") english_report))
  = held english_report.
Proof.
  exact (proj1 (proj1 (C3_failed_reanalysis_keeps_session failing_invoke
                         capture_works (Some Index_onLanguageChange)
                         (js "hi") english_report)
                  (js "Edge Function returned a non-2xx status code")
                  eq_refl)).
Defined.

Lemma C4_witness :
  dataToUse (generatePDFInLanguage translating_invoke capture_works
               (Some Index_onLanguageChange) (js "en") english_report)
  = Some (to_json leaf_blight).
Proof.
  exact (proj2 (proj2 (proj2 (C4_same_language_makes_no_call
                                translating_invoke capture_works
                                (Some Index_onLanguageChange)
                                (js "en") english_report eq_refl)))
           eq_refl).
Defined.


(** ** [getSeverityData] *)

Section Severity.

Lemma getSeverityData_enumerated :
  getSeverityData (js "low") = Number 25
  /\ getSeverityData (js "moderate") = Number 50
  /\ getSeverityData (js "high") = Number 75
  /\ getSeverityData (js "critical") = Number 100.
Proof. repeat split. Qed.

Ltac not_named H name :=
  let E := fresh "E" in
  destruct (Str.eqb _ (js name)) eqn:E;
  [apply eqb_eq in E; exfalso; apply (H name); [simpl; tauto|exact E]|].

(** A string that names neither a severity nor a property of
    [Object.prototype] gives the default. *)
Lemma getSeverityData_default (severity : jsstring) :
  (forall name, In name (map fst severityMap) -> severity <> js name) ->
  (forall name, In name Object_prototype -> severity <> js name) ->
  getSeverityData severity = Number 50.
Proof.
  intros H1 H2; unfold getSeverityData, severityMap, Object_prototype.
  cbn [find fst].
  not_named H1 "low". not_named H1 "moderate". not_named H1 "high".
  not_named H1 "critical".
  not_named H2 "constructor". not_named H2 "__defineGetter__".
  not_named H2 "__defineSetter__". not_named H2 "hasOwnProperty".
  not_named H2 "__lookupGetter__". not_named H2 "__lookupSetter__".
  not_named H2 "isPrototypeOf". not_named H2 "propertyIsEnumerable".
  not_named H2 "toString". not_named H2 "valueOf". not_named H2 "__proto__".
  not_named H2 "toLocaleString".
  reflexivity.
Qed.

(** C10, at the input where the code leaves it: for the string
    [constructor], which is no severity, the lookup finds the property
    that [severityMap] inherits from [Object.prototype], and
    [getSeverityData] returns it instead of [50]. *)
Theorem C10_inherited_property_is_returned :
  getSeverityData (js "constructor") = Inherited "constructor"
  /\ getSeverityData (js "constructor") <> Number 50.
Proof. split; [reflexivity|discriminate]. Qed.

End Severity.

(** ** More on the extraction: white space, the brace span, two records *)

Section ExtractionMore.
Local Open Scope N_scope.

Lemma skip_ws_app (ws l : jsstring) :
  json_spaces ws -> skip_ws (ws ++ l) = skip_ws l.
Proof.
  induction 1 as [|c ws Hc _ IH]; [reflexivity|].
  cbn [app skip_ws]. now rewrite Hc.
Qed.

Lemma parse_value_leading_ws (f : nat) (ws l : jsstring) :
  json_spaces ws -> parse_value f (ws ++ l) = parse_value f l.
Proof.
  intros H; destruct f as [|f]; [reflexivity|].
  cbn [parse_value]; unfold value_body. now rewrite skip_ws_app.
Qed.

Lemma skip_ws_spaces (ws : jsstring) : json_spaces ws -> skip_ws ws = [].
Proof.
  intros H. rewrite <- (app_nil_r ws). now rewrite skip_ws_app.
Qed.

(** What [JSON.parse] gives for a text that starts with the
    serialisation of a record: the record when only white space
    follows, a syntax error otherwise. *)
Lemma JSON_parse_serialize_then (r : AnalysisData) (ws tl : jsstring) :
  json_spaces ws ->
  JSON_parse (ws ++ serialize r ++ tl)
  = match skip_ws tl with
    | [] => Some (to_json r)
    | _ :: _ => None
    end.
Proof.
  intros H.
  assert (P : parse_value (S (record_fuel r + 11)) (ws ++ serialize r ++ tl)
              = POk (to_json r) tl).
  { rewrite parse_value_leading_ws by exact H. apply parse_value_serialize. }
  unfold JSON_parse.
  pose proof (JSON_parse_fuel_adequate (ws ++ serialize r ++ tl)) as A.
  assert (E : parse_value (2 * length (ws ++ serialize r ++ tl) + 1)
                (ws ++ serialize r ++ tl) = POk (to_json r) tl).
  { destruct (Nat.le_ge_cases (S (record_fuel r + 11))
                (2 * length (ws ++ serialize r ++ tl) + 1)) as [L|L].
    - rewrite (parse_value_fuel_mono _ _ _ L); [exact P|].
      rewrite P; discriminate.
    - rewrite <- (parse_value_fuel_mono _ _ _ L A); exact P. }
  now rewrite E.
Qed.

(** White space around the JSON text of a record does not matter: the
    reply is still parsed by the first strategy, to the record. *)
Theorem record_with_white_space_is_parsed (r : AnalysisData)
    (ws1 ws2 : jsstring) :
  json_spaces ws1 -> json_spaces ws2 ->
  parse_reply (ws1 ++ serialize r ++ ws2) = (Ok (to_json r), [WholeText]).
Proof.
  intros H1 H2; unfold parse_reply.
  rewrite (JSON_parse_serialize_then r ws1 ws2 H1).
  now rewrite (skip_ws_spaces ws2 H2).
Qed.

Lemma record_with_white_space_witness :
  parse_reply ([32; 10] ++ serialize leaf_blight ++ [13; 10; 9])
  = (Ok (to_json leaf_blight), [WholeText]).
Proof.
  apply (record_with_white_space_is_parsed leaf_blight [32; 10] [13; 10; 9]);
    repeat constructor.
Defined.

Lemma match_fence_absent (text : jsstring) :
  occurs fence text = false -> match_fence text = None.
Proof.
  unfold occurs, match_fence.
  destruct (after_first fence text); [discriminate|reflexivity].
Qed.

Lemma from_first_brace_app (pre l : jsstring) :
  Forall (fun c => c <> 123) pre ->
  from_first_brace (pre ++ 123 :: l) = Some l.
Proof.
  induction 1 as [|c pre Hc _ IH]; [reflexivity|].
  cbn [app from_first_brace].
  now replace (c =? 123) with false by (symmetry; now apply N.eqb_neq).
Qed.

Lemma through_last_brace_none (post : jsstring) :
  Forall (fun c => c <> 125) post -> through_last_brace post = None.
Proof.
  induction 1 as [|c post Hc _ IH]; [reflexivity|].
  cbn [through_last_brace]. rewrite IH.
  now replace (c =? 125) with false by (symmetry; now apply N.eqb_neq).
Qed.

Lemma through_last_brace_app (u post : jsstring) :
  Forall (fun c => c <> 125) post ->
  through_last_brace (u ++ 125 :: post) = Some (u ++ [125]).
Proof.
  intros H; induction u as [|c u IH].
  - cbn [app through_last_brace]. now rewrite (through_last_brace_none post H).
  - cbn [app through_last_brace]. now rewrite IH.
Qed.

(** The brace span of a text whose first [{] and last [}] are known. *)
Lemma match_object_span (pre u post : jsstring) :
  Forall (fun c => c <> 123) pre -> Forall (fun c => c <> 125) post ->
  match_object (pre ++ (123 :: u ++ [125]) ++ post) = Some (123 :: u ++ [125]).
Proof.
  intros H1 H2; unfold match_object.
  cbn [app]. rewrite <- app_assoc. cbn [app].
  rewrite from_first_brace_app by exact H1.
  now rewrite through_last_brace_app by exact H2.
Qed.

(** The third strategy: in a text that is not JSON and holds no three
    backticks, with no [{] before a span [{ ... }] and no [}] after it,
    the span is what is parsed, and its value is returned. *)
Theorem object_in_prose_is_extracted (pre u post : jsstring) (v : json) :
  Forall (fun c => c <> 123) pre -> Forall (fun c => c <> 125) post ->
  JSON_parse (pre ++ (123 :: u ++ [125]) ++ post) = None ->
  occurs fence (pre ++ (123 :: u ++ [125]) ++ post) = false ->
  JSON_parse (123 :: u ++ [125]) = Some v ->
  parse_reply (pre ++ (123 :: u ++ [125]) ++ post)
  = (Ok v, [WholeText; FencedBlock; BraceSpan]).
Proof.
  intros H1 H2 P F S; unfold parse_reply.
  rewrite P, (match_fence_absent _ F), (match_object_span pre u post H1 H2).
  unfold parse_or_throw. now rewrite S.
Qed.

Lemma object_in_prose_witness :
  parse_reply (js "Result: " ++ small_object ++ js " (done)")
  = (Ok (JObject [(js "a", JNumber 1 0)]),
     [WholeText; FencedBlock; BraceSpan]).
Proof.
  apply (object_in_prose_is_extracted (js "Result: ")
           (quote (js "a") ++ [58; 49]) (js " (done)")).
  - repeat constructor; discriminate.
  - repeat constructor; discriminate.
  - vm_compute; reflexivity.
  - vm_compute; reflexivity.
  - vm_compute; reflexivity.
Defined.

Lemma skip_ws_keeps_brace (sep l : jsstring) :
  skip_ws (sep ++ 123 :: l) <> [].
Proof.
  induction sep as [|c sep IH]; [discriminate|].
  cbn [app skip_ws]. destruct (is_json_ws c); [exact IH|discriminate].
Qed.

(** Two records in one reply, whatever separates them, are rejected when
    the reply holds no three backticks: the whole text is not JSON, and
    the brace span, from the first [{] through the last [}], is the whole
    text again. *)
Theorem two_records_are_rejected (r1 r2 : AnalysisData) (sep : jsstring) :
  occurs fence (serialize r1 ++ sep ++ serialize r2) = false ->
  parse_reply (serialize r1 ++ sep ++ serialize r2)
  = (Throw SyntaxError, [WholeText; FencedBlock; BraceSpan]).
Proof.
  intros F.
  assert (P : JSON_parse (serialize r1 ++ sep ++ serialize r2) = None).
  { pose proof (JSON_parse_serialize_then r1 [] (sep ++ serialize r2)
                  ltac:(constructor)) as E.
    cbn [app] in E. rewrite E.
    destruct (serialize_braces r2) as [u2 E2]. rewrite E2.
    pose proof (skip_ws_keeps_brace sep (u2 ++ [125])) as N.
    now destruct (skip_ws (sep ++ 123 :: u2 ++ [125])). }
  unfold parse_reply. rewrite P, (match_fence_absent _ F).
  assert (O : match_object (serialize r1 ++ sep ++ serialize r2)
              = Some (serialize r1 ++ sep ++ serialize r2)).
  { destruct (serialize_braces r1) as [u1 E1].
    destruct (serialize_braces r2) as [u2 E2].
    rewrite E1, E2.
    assert (W : (123 :: u1 ++ [125]) ++ sep ++ 123 :: u2 ++ [125]
                = 123 :: (u1 ++ [125] ++ sep ++ 123 :: u2) ++ [125]).
    { cbn [app]. rewrite <- !app_assoc. cbn [app].
      rewrite <- !app_assoc. reflexivity. }
    rewrite W.
    pose proof (match_object_span [] (u1 ++ [125] ++ sep ++ 123 :: u2) []
                  ltac:(constructor) ltac:(constructor)) as M.
    cbn [app] in M. rewrite app_nil_r in M. exact M. }
  rewrite O. unfold parse_or_throw. now rewrite P.
Qed.

Lemma two_records_witness :
  parse_reply (serialize leaf_blight ++ [10] ++ serialize overconfident)
  = (Throw SyntaxError, [WholeText; FencedBlock; BraceSpan]).
Proof.
  apply (two_records_are_rejected leaf_blight overconfident [10]).
  vm_compute; reflexivity.
Defined.

End ExtractionMore.

(** ** More on the edge function: the request, the reply, the calls *)

Section EdgeMore.
Local Open Scope N_scope.

Lemma serve_posted (key : option jsstring)
    (fetch : FetchRequest -> FetchOutcome) (imageData language : jsstring) :
  not_configured key = false ->
  serve {| method := js "POST";
           payload := Page.invoke_body imageData language |} key fetch
  = (recover (after_fetch (fetch (forwarded key imageData language))),
     [Fetch (forwarded key imageData language)]).
Proof.
  intros K. unfold serve.
  change (Str.eqb (method {| method := js "POST";
                             payload := Page.invoke_body imageData language |})
            (js "OPTIONS")) with false.
  cbn iota. unfold handle, parse_or_throw. cbn [payload].
  rewrite JSON_parse_invoke_body. unfold analyze. rewrite K.
  reflexivity.
Qed.

(** The request round trip: for every image, language and configured
    credential, the handler given the body that the client posts makes
    exactly one gateway call, which carries that credential, that
    language and that image. *)
Theorem posted_request_is_forwarded (key : option jsstring)
    (fetch : FetchRequest -> FetchOutcome) (imageData language : jsstring) :
  not_configured key = false ->
  snd (serve {| method := js "POST";
                payload := Page.invoke_body imageData language |} key fetch)
  = [Fetch (forwarded key imageData language)].
Proof.
  intros K. now rewrite (serve_posted key fetch imageData language K).
Qed.

Lemma posted_request_witness :
  snd (serve {| method := js "POST";
                payload := Page.invoke_body (js "data:image/png;base64,AAAA")
                             (js "ta") |}
         api_key (gateway 200%Z (js "{}")))
  = [Fetch (forwarded api_key (js "data:image/png;base64,AAAA") (js "ta"))].
Proof.
  exact (posted_request_is_forwarded api_key (gateway 200%Z (js "{}"))
           (js "data:image/png;base64,AAAA") (js "ta") eq_refl).
Defined.

Lemma after_fetch_content (st : Z) (text content : jsstring) (data : json) :
  ok st = true ->
  JSON_parse text = Some data ->
  message_content data = Ok (Some (JString content)) ->
  content <> [] ->
  recover (after_fetch (Replied st text))
  = answer_of (fst (parse_reply content)).
Proof.
  intros O P M N. unfold after_fetch, parse_or_throw.
  rewrite O, P. cbn [negb bind]. rewrite M. cbn [bind].
  destruct content as [|c content]; [congruence|].
  cbn [falsy extract].
  now destruct (fst (parse_reply (c :: content))).
Qed.

Lemma serve_record (key : option jsstring)
    (fetch : FetchRequest -> FetchOutcome) (imageData language : jsstring)
    (r : AnalysisData) :
  not_configured key = false ->
  fetch (forwarded key imageData language)
  = Replied 200 (completion (serialize r)) ->
  serve {| method := js "POST";
           payload := Page.invoke_body imageData language |} key fetch
  = ({| status := 200%Z; body := JsonBody (to_json r) |},
     [Fetch (forwarded key imageData language)]).
Proof.
  intros K F.
  rewrite (serve_posted key fetch imageData language K), F.
  rewrite (after_fetch_content 200 (completion (serialize r))
             (serialize r) (completion_value (serialize r)) eq_refl
             (JSON_parse_completion _) eq_refl).
  - unfold parse_reply. now rewrite JSON_parse_serialize.
  - destruct (serialize_braces r) as [u ->]. discriminate.
Qed.





(** The whole function on a good day: for every image, language,
    configured credential and record, when the gateway answers 200 with
    one choice whose message content is the JSON text of the record, the
    handler makes the one forwarded call and answers 200 with the
    record. *)
Theorem analysis_succeeds_end_to_end (key : option jsstring)
    (fetch : FetchRequest -> FetchOutcome) (imageData language : jsstring)
    (r : AnalysisData) :
  not_configured key = false ->
  fetch (forwarded key imageData language)
  = Replied 200 (completion (serialize r)) ->
  serve {| method := js "POST";
           payload := Page.invoke_body imageData language |} key fetch
  = ({| status := 200%Z; body := JsonBody (to_json r) |},
     [Fetch (forwarded key imageData language)]).
Proof. exact (serve_record key fetch imageData language r). Qed.

Lemma analysis_succeeds_witness :
  serve {| method := js "POST";
           payload := Page.invoke_body (js "data:image/png;base64,AAAA")
                        (js "hi") |}
        api_key (gateway 200%Z (completion (serialize leaf_blight)))
  = ({| status := 200%Z; body := JsonBody (to_json leaf_blight) |},
     [Fetch (forwarded api_key (js "data:image/png;base64,AAAA") (js "hi"))]).
Proof.
  exact (analysis_succeeds_end_to_end api_key
           (gateway 200%Z (completion (serialize leaf_blight)))
           (js "data:image/png;base64,AAAA") (js "hi") leaf_blight
           eq_refl eq_refl).
Defined.

(** Never more than one gateway call per request, and none for the
    preflight, which is answered with an empty 200. *)
Theorem at_most_one_call (req : Request) (key : option jsstring)
    (fetch : FetchRequest -> FetchOutcome) :
  (length (snd (serve req key fetch)) <= 1)%nat
  /\ (Str.eqb (method req) (js "OPTIONS") = true ->
      serve req key fetch = ({| status := 200%Z; body := NoBody |}, [])).
Proof.
  unfold serve. destruct (Str.eqb (method req) (js "OPTIONS")).
  - split; [simpl; lia|reflexivity].
  - split; [|discriminate]. cbn [snd]. unfold handle.
    destruct (parse_or_throw (payload req)) as [args|e]; [|simpl; lia].
    assert (A : (length (snd (analyze args key fetch)) <= 1)%nat).
    { unfold analyze. destruct (not_configured key); [simpl; lia|].
      destruct (ToString_opt (get args "language")); simpl; lia. }
    destruct args; try exact A. simpl; lia.
Qed.

(** No usable content: when the gateway answers 2xx with a JSON object
    that has no [choices], or whose [choices] is [null] or an empty
    array, the handler answers 500 with [No analysis result received]. *)
Theorem reply_without_choices_is_reported (st : Z) (text : jsstring)
    (props : list (jsstring * json)) :
  ok st = true ->
  JSON_parse text = Some (JObject props) ->
  Runtime.lookup (js "choices") props = None
  \/ Runtime.lookup (js "choices") props = Some JNull
  \/ Runtime.lookup (js "choices") props = Some (JArray []) ->
  recover (after_fetch (Replied st text))
  = {| status := 500%Z;
       body := ErrorBody (Text (js "No analysis result received")) |}.
Proof.
  intros O P H. unfold after_fetch, parse_or_throw.
  rewrite O, P. cbn [negb bind message_content get].
  destruct H as [-> | [-> | ->]]; reflexivity.
Qed.

Lemma reply_without_choices_witness :
  recover (after_fetch (Replied 200 (js "{}")))
  = {| status := 500%Z;
       body := ErrorBody (Text (js "No analysis result received")) |}.
Proof.
  apply (reply_without_choices_is_reported 200 (js "{}") []).
  - reflexivity.
  - vm_compute; reflexivity.
  - left; reflexivity.
Defined.

End EdgeMore.

(** ** More on the report component *)

Section ReportMore.

Variable invoke : jsstring -> jsstring -> InvokeResult.
Variable html2canvas : Surface -> option jsstring.

(** With the callback of [Index], the props follow the state: when the
    prop [data] is the held record and the prop [language] the held
    language before a call, they are so after it, and a document that is
    saved draws its chart from the same record as its cards. *)
Theorem wired_report_stays_consistent (selectedLanguage : jsstring)
    (v : View) :
  data (props v) = currentData v ->
  language (props v) = currentLanguage v ->
  data (props (after (generatePDFInLanguage invoke html2canvas
                        (Some Index_onLanguageChange) selectedLanguage v)))
  = currentData (after (generatePDFInLanguage invoke html2canvas
                          (Some Index_onLanguageChange) selectedLanguage v))
  /\ language (props (after (generatePDFInLanguage invoke html2canvas
                               (Some Index_onLanguageChange)
                               selectedLanguage v)))
     = currentLanguage (after (generatePDFInLanguage invoke html2canvas
                                 (Some Index_onLanguageChange)
                                 selectedLanguage v))
  /\ forall d,
       In (Save d) (effects (generatePDFInLanguage invoke html2canvas
                               (Some Index_onLanguageChange)
                               selectedLanguage v)) ->
       charted (depicts d) = shown (depicts d).
Proof.
  intros D L. unfold generatePDFInLanguage.
  destruct (mounted v); cbn [negb].
  2:{ cbn [after effects]. repeat split; auto. intros d []. }
  destruct (Str.eqb selectedLanguage (currentLanguage v)); cbn [negb].
  - cbn [after effects set_generating props currentData currentLanguage].
    repeat split; auto.
    intros d H. apply export_saves_what_is_rendered in H.
    rewrite H. exact D.
  - destruct (invoke (imagePreview (props v)) selectedLanguage)
      as [translatedData|m]; cbn [after effects].
    + repeat split.
      intros d [H|[H|H]]; try discriminate.
      apply export_saves_what_is_rendered in H. now rewrite H.
    + cbn [set_generating props currentData currentLanguage].
      repeat split; auto.
      intros d [H|[H|[H|[]]]]; discriminate.
Qed.

(** Without the callback, a report in a new language has a stale chart:
    the cards of the saved document show the new record, its confidence
    chart and severity arc are drawn from the prop [data], which has not
    changed. *)
Theorem unwired_report_charts_the_old_record (selectedLanguage : jsstring)
    (v : View) (translatedData : json) (d : Document) :
  mounted v = true ->
  Str.eqb selectedLanguage (currentLanguage v) = false ->
  invoke (imagePreview (props v)) selectedLanguage = Data translatedData ->
  In (Save d) (effects (generatePDFInLanguage invoke html2canvas None
                          selectedLanguage v)) ->
  shown (depicts d) = translatedData
  /\ shown_language (depicts d) = selectedLanguage
  /\ charted (depicts d) = data (props v).
Proof.
  intros M L I. unfold generatePDFInLanguage.
  rewrite M, L, I. cbn [negb effects app In].
  intros [H|[H|H]]; try discriminate.
  apply export_saves_what_is_rendered in H. rewrite H.
  repeat split.
Qed.

(** The busy flag: after a call on a mounted component
    [isGeneratingPDF] is false, whether the analysis or the capture
    failed or not; a call on an unmounted component changes nothing and
    has no effect. *)
Theorem busy_flag_is_reset
    (onLanguageChange : option (jsstring -> json -> Props -> Props))
    (selectedLanguage : jsstring) (v : View) :
  (mounted v = true ->
   isGeneratingPDF (after (generatePDFInLanguage invoke html2canvas
                             onLanguageChange selectedLanguage v)) = false)
  /\ (mounted v = false ->
      after (generatePDFInLanguage invoke html2canvas onLanguageChange
               selectedLanguage v) = v
      /\ effects (generatePDFInLanguage invoke html2canvas onLanguageChange
                    selectedLanguage v) = []).
Proof.
  unfold generatePDFInLanguage. destruct (mounted v); cbn [negb].
  - split; [intros _|discriminate].
    destruct (Str.eqb selectedLanguage (currentLanguage v)); cbn [negb];
      [reflexivity|].
    now destruct (invoke (imagePreview (props v)) selectedLanguage).
  - split; [discriminate|]. intros _; split; reflexivity.
Qed.

(** The analysis call of a run: there is one exactly when the component
    is mounted and the requested language differs from the held one; it
    is made for the image of the props and the requested language, and
    it is the only one. *)
Theorem one_analysis_call_per_language_change
    (onLanguageChange : option (jsstring -> json -> Props -> Props))
    (selectedLanguage : jsstring) (v : View) :
  (forall image language,
     In (Invoke image language)
        (effects (generatePDFInLanguage invoke html2canvas onLanguageChange
                    selectedLanguage v))
     <-> mounted v = true
         /\ Str.eqb selectedLanguage (currentLanguage v) = false
         /\ image = imagePreview (props v)
         /\ language = selectedLanguage)
  /\ (length (filter is_invoke
                (effects (generatePDFInLanguage invoke html2canvas
                            onLanguageChange selectedLanguage v))) <= 1)%nat.
Proof.
  assert (X : forall lang w, filter is_invoke (export html2canvas lang w) = []).
  { intros lang w; unfold export; now destruct (html2canvas (render w)). }
  unfold generatePDFInLanguage. destruct (mounted v); cbn [negb].
  2:{ split; [|simpl; lia]. intros image language; split;
        [intros []|intros [H _]; discriminate]. }
  destruct (Str.eqb selectedLanguage (currentLanguage v)); cbn [negb].
  { cbn [effects]. split; [|rewrite X; simpl; lia].
    intros image language; split.
    - intros H; now apply export_invokes_nothing in H.
    - intros [_ [H _]]; discriminate. }
  destruct (invoke (imagePreview (props v)) selectedLanguage)
    as [translatedData|m]; cbn [effects app].
  - split.
    + intros image language; split.
      * intros [H|[H|H]]; try discriminate.
        -- injection H as <- <-. repeat split.
        -- now apply export_invokes_nothing in H.
      * intros (_ & _ & -> & ->). right; left; reflexivity.
    + cbn [filter is_invoke]. rewrite X. simpl; lia.
  - split; [|simpl; lia].
    intros image language; split.
    + intros [H|[H|[H|[]]]]; try discriminate.
      injection H as <- <-. repeat split.
    + intros (_ & _ & -> & ->). right; left; reflexivity.
Qed.

(** The user is told the outcome: on a mounted component the last effect
    of every run is a toast, [PDF Downloaded] when a document was saved
    and [PDF Generation Failed] otherwise. *)
Theorem every_run_ends_with_a_toast
    (onLanguageChange : option (jsstring -> json -> Props -> Props))
    (selectedLanguage : jsstring) (v : View) :
  mounted v = true ->
  exists before t,
    effects (generatePDFInLanguage invoke html2canvas onLanguageChange
               selectedLanguage v) = before ++ [Toast t]
    /\ ((exists name d, t = Downloaded name /\ In (Save d) before)
        \/ (exists m, t = Failed m /\ forall d, ~ In (Save d) before)).
Proof.
  intros M.
  assert (X : forall lang w, exists before t,
    export html2canvas lang w = before ++ [Toast t]
    /\ ((exists name d, t = Downloaded name /\ In (Save d) before)
        \/ (exists m, t = Failed m /\ forall d, ~ In (Save d) before))).
  { intros lang w; unfold export.
    destruct (html2canvas (render w)) as [m|].
    - exists [Capture (render w)], (Failed m). split; [reflexivity|].
      right; exists m; split; [reflexivity|].
      intros d [H|[]]; discriminate.
    - eexists [Capture (render w); Save _], (Downloaded _).
      split; [reflexivity|]. left; do 2 eexists; split; [reflexivity|].
      right; left; reflexivity. }
  unfold generatePDFInLanguage. rewrite M; cbn [negb].
  destruct (Str.eqb selectedLanguage (currentLanguage v)); cbn [negb effects].
  { apply X. }
  destruct (invoke (imagePreview (props v)) selectedLanguage)
    as [translatedData|m]; cbn [effects].
  - destruct (X selectedLanguage
                (adopt onLanguageChange selectedLanguage translatedData
                   (set_generating true v)))
      as (before & t & E & H).
    rewrite E.
    eexists (_ :: _ :: before), t. split; [reflexivity|].
    destruct H as [(name & d & -> & Hin)|(m & -> & Hn)].
    + left; exists name, d; split; [reflexivity|]. right; right; exact Hin.
    + right; exists m; split; [reflexivity|].
      intros d [H|[H|H]]; try discriminate. exact (Hn d H).
  - eexists [_; _], (Failed m). split; [reflexivity|].
    right; exists m; split; [reflexivity|].
    intros d [H|[H|[]]]; discriminate.
Qed.

End ReportMore.

Lemma wired_report_witness :
  data (props (after (generatePDFInLanguage translating_invoke capture_works
                        (Some Index_onLanguageChange) (js "hi")
                        english_report)))
  = currentData (after (generatePDFInLanguage translating_invoke
                          capture_works (Some Index_onLanguageChange)
                          (js "hi") english_report)).
Proof.
  exact (proj1 (wired_report_stays_consistent translating_invoke
                  capture_works (js "hi") english_report eq_refl eq_refl)).
Defined.

Lemma unwired_report_witness :
  exists d,
    In (Save d) (effects (generatePDFInLanguage translating_invoke
                            capture_works None (js "hi") english_report))
    /\ shown (depicts d) = to_json overconfident
    /\ shown_language (depicts d) = js "hi"
    /\ charted (depicts d) = to_json leaf_blight.
Proof.
  eexists. split.
  - right; right; right; left; reflexivity.
  - apply (unwired_report_charts_the_old_record translating_invoke
             capture_works (js "hi") english_report
             (to_json overconfident)).
    + reflexivity.
    + reflexivity.
    + reflexivity.
    + right; right; right; left; reflexivity.
Defined.

Lemma busy_flag_witness :
  isGeneratingPDF (after (generatePDFInLanguage failing_invoke capture_breaks
                            None (js "hi") english_report)) = false.
Proof.
  exact (proj1 (busy_flag_is_reset failing_invoke capture_breaks None
                  (js "hi") english_report) eq_refl).
Defined.

Lemma every_run_witness :
  exists before t,
    effects (generatePDFInLanguage translating_invoke capture_breaks
               (Some Index_onLanguageChange) (js "hi") english_report)
    = before ++ [Toast t]
    /\ ((exists name d, t = Downloaded name /\ In (Save d) before)
        \/ (exists m, t = Failed m /\ forall d, ~ In (Save d) before)).
Proof.
  exact (every_run_ends_with_a_toast translating_invoke capture_breaks
           (Some Index_onLanguageChange) (js "hi") english_report eq_refl).
Defined.

(** ** The page: selecting, analysing, changing the language *)

Section PageMore.

Variable invoke : jsstring -> jsstring -> InvokeResult.

(** Every analysis call of the page is made for the preview held, which
    is not empty, and the language held. *)
Theorem analysis_call_carries_the_page_state (p : Page.State)
    (imageData language : jsstring) :
  In (Page.Invoke imageData language) (snd (Page.handleAnalyze invoke p)) ->
  Page.imagePreview p = Some imageData
  /\ imageData <> []
  /\ language = Page.language p.
Proof.
  unfold Page.handleAnalyze, Page.no_preview.
  destruct (Page.imagePreview p) as [[|c i]|]; cbn [snd].
  1,3: intros [H|[]]; discriminate.
  destruct (invoke (c :: i) (Page.language p)); cbn [snd];
    intros [H|[H|[]]]; try discriminate;
    injection H as <- <-; repeat split; discriminate.
Qed.

(** What [handleAnalyze] leaves alone: the file, the preview and the
    language are never changed; the record changes only to the data of a
    call that succeeded; and whenever a call was made the page is no
    longer analysing afterwards. *)
Theorem handleAnalyze_changes_only_the_record (p : Page.State) :
  Page.imageFile (fst (Page.handleAnalyze invoke p)) = Page.imageFile p
  /\ Page.imagePreview (fst (Page.handleAnalyze invoke p))
     = Page.imagePreview p
  /\ Page.language (fst (Page.handleAnalyze invoke p)) = Page.language p
  /\ (Page.analysisData (fst (Page.handleAnalyze invoke p))
      = Page.analysisData p
      \/ exists imageData d,
           Page.imagePreview p = Some imageData
           /\ invoke imageData (Page.language p) = Data d
           /\ Page.analysisData (fst (Page.handleAnalyze invoke p)) = Some d)
  /\ (snd (Page.handleAnalyze invoke p) <> [Page.Toast Page.NoImageSelected] ->
      Page.isAnalyzing (fst (Page.handleAnalyze invoke p)) = false).
Proof.
  unfold Page.handleAnalyze, Page.no_preview.
  destruct (Page.imagePreview p) as [[|c i]|] eqn:P; cbn [fst snd].
  1,3: repeat split; auto; congruence.
  destruct (invoke (c :: i) (Page.language p)) as [d|m] eqn:I; cbn [fst snd].
  - repeat split; auto.
    right. exists (c :: i), d. repeat split; auto.
  - repeat split; auto.
Qed.

(** Selecting an image and then analysing: for every file with a
    non-empty preview, when the call succeeds the page holds the file,
    the preview and the data of the call, made once for that preview in
    the language held. *)
Theorem select_then_analyze (file preview : jsstring) (p : Page.State)
    (d : json) :
  preview <> [] ->
  invoke preview (Page.language p) = Data d ->
  Page.handleAnalyze invoke (Page.handleImageSelect file preview p)
  = ({| Page.imageFile := Some file;
        Page.imagePreview := Some preview;
        Page.language := Page.language p;
        Page.isAnalyzing := false;
        Page.analysisData := Some d |},
     [Page.Invoke preview (Page.language p);
      Page.Toast Page.AnalysisComplete]).
Proof.
  intros N I. unfold Page.handleAnalyze, Page.no_preview.
  cbn [Page.handleImageSelect Page.imagePreview Page.language].
  destruct preview as [|c preview]; [congruence|].
  now rewrite I.
Qed.

(** Without an image nothing is asked: analysing right after the image
    was cleared, or on the page as it starts, makes no call and changes
    nothing. *)
Theorem no_image_no_call (p : Page.State) :
  Page.handleAnalyze invoke (Page.handleClearImage p)
  = (Page.handleClearImage p, [Page.Toast Page.NoImageSelected])
  /\ Page.handleAnalyze invoke Page.initial
     = (Page.initial, [Page.Toast Page.NoImageSelected]).
Proof. split; reflexivity. Qed.

(** The callback that the page hands to the report,
    [setLanguage(newLang); setAnalysisData(newData)]: for data that is
    not falsy the props of the report change as [Index_onLanguageChange]
    says, the callback that the report component was verified with; for
    falsy data ([null], [false], [0], the empty string) the page stops
    rendering the report. *)
Theorem language_change_reaches_the_props (newLang : jsstring)
    (newData : json) (p : Page.State) (props : Props) :
  Page.results_props p = Some props ->
  Page.results_props (Page.onLanguageChange newLang newData p)
  = if falsy (Some newData) then None
    else Some (Index_onLanguageChange newLang newData props).
Proof.
  unfold Page.results_props.
  destruct (Page.analysisData p) as [d|]; [|discriminate].
  destruct (falsy (Some d)); [discriminate|].
  intros [= <-].
  cbn [Page.onLanguageChange Page.analysisData Page.language
       Page.imagePreview].
  now destruct (falsy (Some newData)).
Qed.

End PageMore.

Lemma analysis_call_witness :
  Page.imagePreview (Page.handleImageSelect (js "leaf.png")
                       (js "data:image/png;base64,AAAA") Page.initial)
  = Some (js "data:image/png;base64,AAAA")
  /\ js "data:image/png;base64,AAAA" <> []
  /\ js "en" = Page.language (Page.handleImageSelect (js "leaf.png")
                                (js "data:image/png;base64,AAAA")
                                Page.initial).
Proof.
  apply (analysis_call_carries_the_page_state translating_invoke).
  left; reflexivity.
Defined.

Lemma select_then_analyze_witness :
  Page.handleAnalyze translating_invoke
    (Page.handleImageSelect (js "leaf.png")
       (js "data:image/png;base64,AAAA") Page.initial)
  = ({| Page.imageFile := Some (js "leaf.png");
        Page.imagePreview := Some (js "data:image/png;base64,AAAA");
        Page.language := js "en";
        Page.isAnalyzing := false;
        Page.analysisData := Some (to_json overconfident) |},
     [Page.Invoke (js "data:image/png;base64,AAAA") (js "en");
      Page.Toast Page.AnalysisComplete]).
Proof.
  apply (select_then_analyze translating_invoke (js "leaf.png")
           (js "data:image/png;base64,AAAA") Page.initial
           (to_json overconfident)).
  - discriminate.
  - reflexivity.
Defined.

Lemma language_change_witness :
  Page.results_props
    (Page.onLanguageChange (js "hi") (to_json overconfident)
       (Page.setAnalysisData (to_json leaf_blight) Page.initial))
  = Some (Index_onLanguageChange (js "hi") (to_json overconfident)
            {| data := to_json leaf_blight; language := js "en";
               imagePreview := [] |})
  /\ Page.results_props
       (Page.onLanguageChange (js "hi") JNull
          (Page.setAnalysisData (to_json leaf_blight) Page.initial))
     = None.
Proof.
  split.
  - exact (language_change_reaches_the_props (js "hi")
             (to_json overconfident)
             (Page.setAnalysisData (to_json leaf_blight) Page.initial)
             _ eq_refl).
  - exact (language_change_reaches_the_props (js "hi") JNull
             (Page.setAnalysisData (to_json leaf_blight) Page.initial)
             _ eq_refl).
Defined.

(** ** The page against the edge function *)

Section PageAndEdge.

Variable key : option jsstring.
Variable fetch : FetchRequest -> FetchOutcome.



End PageAndEdge.



(** ** The badge, the default severity, the language catalogue *)

Section Lookups.

Ltac not_listed H name :=
  let E := fresh "E" in
  destruct (Str.eqb _ (js name)) eqn:E;
  [apply eqb_eq in E; exfalso; apply (H name); [simpl; tauto|exact E]|].

Ltac listed name :=
  let E := fresh "E" in
  let H := fresh "H" in
  destruct (Str.eqb _ (js name)) eqn:E;
  [split;
   [eexists; split; [reflexivity|simpl; tauto]
   |intros H; apply eqb_eq in E; exfalso; apply (H name);
    [simpl; tauto|exact E]]|].

(** The badge: for every string that names no property of
    [Object.prototype], [getSeverityColor] gives one of the classes of
    [colors], and the class of [moderate] when the string is none of the
    four severities. *)
Theorem getSeverityColor_gives_a_class (severity : jsstring) :
  (forall name, In name Object_prototype -> severity <> js name) ->
  (exists c, getSeverityColor severity = Class c /\ In c (map snd colors))
  /\ ((forall name, In name (map fst colors) -> severity <> js name) ->
      getSeverityColor severity = Class "bg-warning text-white").
Proof.
  intros H2. unfold getSeverityColor, colors, Object_prototype.
  cbn [find fst].
  listed "low". listed "moderate". listed "high". listed "critical".
  not_listed H2 "constructor". not_listed H2 "__defineGetter__".
  not_listed H2 "__defineSetter__". not_listed H2 "hasOwnProperty".
  not_listed H2 "__lookupGetter__". not_listed H2 "__lookupSetter__".
  not_listed H2 "isPrototypeOf". not_listed H2 "propertyIsEnumerable".
  not_listed H2 "toString". not_listed H2 "valueOf".
  not_listed H2 "__proto__". not_listed H2 "toLocaleString".
  split; [eexists; split; [reflexivity|simpl; tauto]|reflexivity].
Qed.

(** The catalogue: every code of [languages] is found under its own
    name, so no entry is shadowed by an earlier one. *)
Theorem listed_language_has_its_name (code name : string) :
  In (code, name) languages ->
  language_name (js code) = Some (js name).
Proof.
  unfold languages. cbn [In].
  intros H.
  repeat (destruct H as [H|H]; [injection H as <- <-; reflexivity|]).
  destruct H.
Qed.

End Lookups.

Lemma getSeverityColor_witness :
  getSeverityColor (js "severe") = Class "bg-warning text-white".
Proof.
  apply (proj2 (getSeverityColor_gives_a_class (js "severe")
                  ltac:(intros name H; vm_compute in H;
                        repeat (destruct H as [<-|H]; [discriminate|]);
                        destruct H))).
  intros name H; vm_compute in H.
  repeat (destruct H as [<-|H]; [discriminate|]).
  destruct H.
Defined.

Lemma getSeverityData_default_witness :
  getSeverityData (js "severe") = Number 50.
Proof.
  apply (getSeverityData_default (js "severe")).
  - intros name H; vm_compute in H.
    repeat (destruct H as [<-|H]; [discriminate|]).
    destruct H.
  - intros name H; vm_compute in H.
    repeat (destruct H as [<-|H]; [discriminate|]).
    destruct H.
Defined.

Lemma listed_language_witness :
  language_name (js "ta") = Some (js "Tamil").
Proof.
  apply (listed_language_has_its_name "ta" "Tamil").
  simpl; tauto.
Defined.
